(** * rn-show-more-text: the truncation helpers of [src/helper.ts], the
      [calculateTruncatedText] callback of [src/rnShowMoreText.tsx] and the
      component's event handlers and render around it.

    Modelling conventions.
    - A JavaScript string is its sequence of UTF-16 code units, [list Z].
      [s.length], [s[i]], [s.slice(a, b)] and regex match indices count code
      units; [for (const c of s)] and the [u]-flagged regexes step through
      code points (a high surrogate followed by a low one forms one code
      point, any other unit stands for itself).
    - JavaScript numbers used as widths are exact rationals [Q]; numbers used
      as string or array positions are [nat] (or [Z] where the code lets them
      be negative).
    - The global regexes [EMOJI_REGEX] and [SIMPLE_EMOJI_REGEX] carry their
      [lastIndex] as explicit state: [exec] takes and returns it.
    - [String.prototype.normalize("NFC")] is the section variable
      [normalize]; a concrete instance [nfc] is given for evaluation. *)

From stdpp Require Import base gmap list.
From Stdlib Require Import ZArith QArith Qabs Lqa.

Open Scope Z_scope.

(** ** UTF-16 code units and code points *)

Definition is_high (u : Z) : bool := (0xD800 <=? u) && (u <=? 0xDBFF).
Definition is_low (u : Z) : bool := (0xDC00 <=? u) && (u <=? 0xDFFF).

(** The code point at the head of a string and the units after it. *)
Definition cp_at (s : list Z) : option (Z * list Z) :=
  match s with
  | [] => None
  | u :: r =>
      if is_high u then
        match r with
        | l :: r' =>
            if is_low l then Some (0x10000 + (u - 0xD800) * 0x400 + (l - 0xDC00), r')
            else Some (u, r)
        | [] => Some (u, r)
        end
      else Some (u, r)
  end.

(** [for (const char of s)]: the string split into its code points, each one
    a string of one or two units. *)
Fixpoint for_of (s : list Z) : list (list Z) :=
  match s with
  | [] => []
  | u :: r =>
      match r with
      | l :: r' =>
          if is_high u && is_low l then [u; l] :: for_of r' else [u] :: for_of r
      | [] => [[u]]
      end
  end.

(** UTF-16 encoding of code points, used to write inputs. *)
Definition encode_cp (c : Z) : list Z :=
  if c <? 0x10000 then [c]
  else [0xD800 + (c - 0x10000) / 0x400; 0xDC00 + (c - 0x10000) mod 0x400].

Definition utf16 (cps : list Z) : list Z := flat_map encode_cp cps.

(** Decoding to code points (lone surrogates stand for themselves). *)
Fixpoint decode (s : list Z) : list Z :=
  match s with
  | [] => []
  | u :: r =>
      match r with
      | l :: r' =>
          if is_high u && is_low l
          then (0x10000 + (u - 0xD800) * 0x400 + (l - 0xDC00)) :: decode r'
          else u :: decode r
      | [] => [u]
      end
  end.

Definition SPACE : Z := 0x20.
Definition NEWLINE : Z := 0x0A.

(** ** Unicode properties used by the regexes *)

(** [\p{Extended_Pictographic}], the ranges of emoji-data.txt. *)
Definition extended_pictographic_ranges : list (Z * Z) :=
  [(0x00A9, 0x00A9); (0x00AE, 0x00AE); (0x203C, 0x203C); (0x2049, 0x2049);
   (0x2122, 0x2122); (0x2139, 0x2139); (0x2194, 0x2199); (0x21A9, 0x21AA);
   (0x231A, 0x231B); (0x2328, 0x2328); (0x2388, 0x2388); (0x23CF, 0x23CF);
   (0x23E9, 0x23F3); (0x23F8, 0x23FA); (0x24C2, 0x24C2); (0x25AA, 0x25AB);
   (0x25B6, 0x25B6); (0x25C0, 0x25C0); (0x25FB, 0x25FE); (0x2600, 0x2605);
   (0x2607, 0x2612); (0x2614, 0x2685); (0x2690, 0x2705); (0x2708, 0x2712);
   (0x2714, 0x2714); (0x2716, 0x2716); (0x271D, 0x271D); (0x2721, 0x2721);
   (0x2728, 0x2728); (0x2733, 0x2734); (0x2744, 0x2744); (0x2747, 0x2747);
   (0x274C, 0x274C); (0x274E, 0x274E); (0x2753, 0x2755); (0x2757, 0x2757);
   (0x2763, 0x2767); (0x2795, 0x2797); (0x27A1, 0x27A1); (0x27B0, 0x27B0);
   (0x27BF, 0x27BF); (0x2934, 0x2935); (0x2B05, 0x2B07); (0x2B1B, 0x2B1C);
   (0x2B50, 0x2B50); (0x2B55, 0x2B55); (0x3030, 0x3030); (0x303D, 0x303D);
   (0x3297, 0x3297); (0x3299, 0x3299); (0x1F000, 0x1F0FF); (0x1F10D, 0x1F10F);
   (0x1F12F, 0x1F12F); (0x1F16C, 0x1F171); (0x1F17E, 0x1F17F); (0x1F18E, 0x1F18E);
   (0x1F191, 0x1F19A); (0x1F1AD, 0x1F1E5); (0x1F201, 0x1F20F); (0x1F21A, 0x1F21A);
   (0x1F22F, 0x1F22F); (0x1F232, 0x1F23A); (0x1F23C, 0x1F23F); (0x1F249, 0x1F3FA);
   (0x1F400, 0x1F53D); (0x1F546, 0x1F64F); (0x1F680, 0x1F6FF); (0x1F774, 0x1F77F);
   (0x1F7D5, 0x1F7FF); (0x1F80C, 0x1F80F); (0x1F848, 0x1F84F); (0x1F85A, 0x1F85F);
   (0x1F888, 0x1F88F); (0x1F8AE, 0x1F8FF); (0x1F90C, 0x1F93A); (0x1F93C, 0x1F945);
   (0x1F947, 0x1FAFF); (0x1FC00, 0x1FFFD)].

Definition is_ext_pict (c : Z) : bool :=
  existsb (fun '(lo, hi) => (lo <=? c) && (c <=? hi)) extended_pictographic_ranges.

(** [\p{Regional_Indicator}]. *)
Definition is_regional_indicator (c : Z) : bool := (0x1F1E6 <=? c) && (c <=? 0x1F1FF).

Definition VS16 : Z := 0xFE0F.
Definition ZWJ : Z := 0x200D.

(** ** The two emoji regexes, matched at the head of a string

    A matcher returns the units left after the match, [None] when no match
    starts at the head. Quantifiers are greedy and nothing follows them in
    the patterns, so the match never backtracks. The [fuel] of the starred
    groups is the string's length: every iteration consumes a unit. *)

(** One [\p{Extended_Pictographic}] code point. *)
Definition pict (s : list Z) : option (list Z) :=
  match cp_at s with
  | Some (c, r) => if is_ext_pict c then Some r else None
  | None => None
  end.

(** One given code unit. *)
Definition unit_is (x : Z) (s : list Z) : option (list Z) :=
  match s with
  | u :: r => if u =? x then Some r else None
  | [] => None
  end.

(** [(?:\uFE0F)?] *)
Definition opt_vs16 (s : list Z) : list Z :=
  match unit_is VS16 s with Some r => r | None => s end.

(** [(?:\u200D\p{Extended_Pictographic}(?:\uFE0F)?)*] *)
Fixpoint zwj_star (fuel : nat) (s : list Z) : list Z :=
  match fuel with
  | O => s
  | S f =>
      match unit_is ZWJ s with
      | Some r => match pict r with Some r' => zwj_star f (opt_vs16 r') | None => s end
      | None => s
      end
  end.

(** [\p{Extended_Pictographic}(?:\uFE0F)?(?:\u200D\p{Extended_Pictographic}(?:\uFE0F)?)*] *)
Definition emoji_sequence (s : list Z) : option (list Z) :=
  match pict s with
  | Some r => Some (zwj_star (length s) (opt_vs16 r))
  | None => None
  end.

(** [\p{Regional_Indicator}{2}] *)
Definition flag_pair (s : list Z) : option (list Z) :=
  match cp_at s with
  | Some (c1, r1) =>
      if is_regional_indicator c1 then
        match cp_at r1 with
        | Some (c2, r2) => if is_regional_indicator c2 then Some r2 else None
        | None => None
        end
      else None
  | None => None
  end.

(** [EMOJI_REGEX]: the emoji sequence alternative first, then the flag. *)
Definition EMOJI_REGEX (s : list Z) : option (list Z) :=
  match emoji_sequence s with
  | Some r => Some r
  | None => flag_pair s
  end.

(** [(?:\uFE0F|\u200D\p{Extended_Pictographic})*] *)
Fixpoint simple_star (fuel : nat) (s : list Z) : list Z :=
  match fuel with
  | O => s
  | S f =>
      match unit_is VS16 s with
      | Some r => simple_star f r
      | None =>
          match unit_is ZWJ s with
          | Some r => match pict r with Some r' => simple_star f r' | None => s end
          | None => s
          end
      end
  end.

(** [SIMPLE_EMOJI_REGEX]: no regional-indicator alternative. *)
Definition SIMPLE_EMOJI_REGEX (s : list Z) : option (list Z) :=
  match pict s with
  | Some r => Some (simple_star (length s) r)
  | None => None
  end.

(** ** [RegExp.prototype.exec] of a global, [u]-flagged regex *)

Section Exec.
Variable re : list Z -> option (list Z).

(** Leftmost match at or after position [pos] (the units of [t] start
    there), stepping by code points: [Some (match.index, end)]. *)
Fixpoint scan (t : list Z) (pos : nat) : option (nat * nat) :=
  match re t with
  | Some rest => Some (pos, (pos + (length t - length rest))%nat)
  | None =>
      match t with
      | [] => None
      | u :: r =>
          match r with
          | l :: r' => if is_high u && is_low l then scan r' (pos + 2) else scan r (pos + 1)
          | [] => scan r (pos + 1)
          end
      end
  end.

(** [re.exec(s)] with [re.lastIndex = lastIndex]: the match and the new
    [lastIndex] (its end on success, 0 on failure). *)
Definition exec (s : list Z) (lastIndex : nat) : option (nat * nat) * nat :=
  if (length s <? lastIndex)%nat then (None, 0%nat)
  else
    match scan (drop lastIndex s) lastIndex with
    | Some (i, e) => (Some (i, e), e)
    | None => (None, 0%nat)
    end.

(** The matches seen by [while ((match = re.exec(s)) !== null)] started
    with [re.lastIndex = 0]; every match ends past its start, so
    [length s + 1] rounds are enough. *)
Fixpoint exec_loop (fuel : nat) (s : list Z) (lastIndex : nat) : list (nat * nat) :=
  match fuel with
  | O => []
  | S f =>
      match exec s lastIndex with
      | (Some m, li) => m :: exec_loop f s li
      | (None, _) => []
      end
  end.

Definition all_matches (s : list Z) : list (nat * nat) := exec_loop (S (length s)) s 0.
End Exec.

(** [s.slice(a, b)] for code unit positions. *)
Definition str_slice (s : list Z) (a b : nat) : list Z := take (b - a) (drop a s).

(** ** A concrete [normalize("NFC")]

    Decomposition, canonical ordering and canonical composition, with the
    Unicode data restricted to the table below (the accented narrow vowels
    of [SHORT_CHARACTERS] and their neighbours); every other code point is a
    starter without decomposition, which holds for ASCII, CJK ideographs,
    emoji and regional indicators. *)

Definition canonical_decomposition_table : list (Z * (Z * Z)) :=
  [(0x00EC, (0x69, 0x300)); (0x00ED, (0x69, 0x301)); (0x1EC9, (0x69, 0x309));
   (0x1ECB, (0x69, 0x323)); (0x00E8, (0x65, 0x300)); (0x00E9, (0x65, 0x301));
   (0x00EA, (0x65, 0x302)); (0x1EB9, (0x65, 0x323)); (0x1EC7, (0x1EB9, 0x302))].

Definition canonical_decomposition (c : Z) : option (Z * Z) :=
  snd <$> find (fun e => fst e =? c) canonical_decomposition_table.

Definition canonical_combining_class (c : Z) : Z :=
  if (c =? 0x300) || (c =? 0x301) || (c =? 0x302) || (c =? 0x309) then 230
  else if c =? 0x323 then 220 else 0.

Definition canonical_composition (a b : Z) : option Z :=
  fst <$> find (fun e => (fst (snd e) =? a) && (snd (snd e) =? b)) canonical_decomposition_table.

Definition decompose_cp (c : Z) : list Z :=
  match canonical_decomposition c with
  | Some (a, m) =>
      match canonical_decomposition a with
      | Some (a', m') => [a'; m'; m]
      | None => [a; m]
      end
  | None => [c]
  end.

(** Stable insertion of a mark into a run sorted by combining class. *)
Fixpoint insert_mark (m : Z) (run : list Z) : list Z :=
  match run with
  | [] => [m]
  | x :: r =>
      if canonical_combining_class m <? canonical_combining_class x then m :: x :: r
      else x :: insert_mark m r
  end.

Fixpoint canonical_order_aux (run : list Z) (s : list Z) : list Z :=
  match s with
  | [] => run
  | c :: r =>
      if canonical_combining_class c =? 0 then run ++ c :: canonical_order_aux [] r
      else canonical_order_aux (insert_mark c run) r
  end.

(** Composition with the last starter, unless a mark in between blocks it. *)
Fixpoint compose_from (starter : Z) (marks : list Z) (last : Z) (s : list Z) : list Z :=
  match s with
  | [] => starter :: rev marks
  | c :: r =>
      let blocked :=
        match marks with [] => false | _ => canonical_combining_class c <=? last end in
      match (if blocked then None else canonical_composition starter c) with
      | Some p => compose_from p marks last r
      | None =>
          if canonical_combining_class c =? 0 then starter :: rev marks ++ compose_from c [] 0 r
          else compose_from starter (c :: marks) (canonical_combining_class c) r
      end
  end.

Fixpoint compose_all (s : list Z) : list Z :=
  match s with
  | [] => []
  | c :: r =>
      if canonical_combining_class c =? 0 then compose_from c [] 0 r else c :: compose_all r
  end.

Definition nfc (s : list Z) : list Z :=
  utf16 (compose_all (canonical_order_aux [] (flat_map decompose_cp (decode s)))).

(** ** Character classes *)

(** The second (current) [SHORT_CHARACTERS] of helper.ts. *)
Definition SHORT_CHARACTERS : list (list Z) :=
  [[0xED]; [0x1EC9]; [0x1ECB]; [0x1EC9]; [0xEC]; [0x69]; [0x74]; [0x66]; [0x72];
   [0x6C]; [0x2E]; [0x2C]; [0x7C]; [0x3A]; [0x3B]; [0x27]; [0x22]; [0x21]].

Definition LONG_CHARACTERS : list (list Z) := [[0x6D]; [0x77]; [0x4D]; [0x57]].

(** [Set.prototype.has] on a set of strings given by its elements. *)
Definition set_has (set : list (list Z)) (c : list Z) : bool :=
  existsb (fun x => bool_decide (x = c)) set.

(** [s[i]] as a string; [""] when out of range (the code writes
    [normalized[charIndex] || ""]). *)
Definition char_at (s : list Z) (i : nat) : list Z :=
  match s !! i with Some u => [u] | None => [] end.

Definition countShortCharactersHelper (input : list Z) (customShortCharacters : list (list Z)) : nat :=
  length (List.filter (set_has (customShortCharacters ++ SHORT_CHARACTERS)) (for_of input)).

Record VisualProfile := {
  visualLength : nat;
  shortCharCount : nat;
  emojiCount : nat;
  longCharCount : nat
}.

Definition half : Q := 1 # 2.

(** [getCharWidth], the closure shared (verbatim) by
    [calculateSlicePositionHelper] and [calculateStringWidthHelper]; the merged
    sets are [custom ++ defaults]. *)
Definition getCharWidth (charWidth : Q) (customShort customLong : list (list Z)) (c : list Z) : Q :=
  if bool_decide (c = [SPACE]) then (charWidth * half)%Q
  else if set_has (customShort ++ SHORT_CHARACTERS) c then (charWidth * half)%Q
  else if set_has (customLong ++ LONG_CHARACTERS) c then (charWidth * (3 # 2))%Q
  else charWidth.

Definition balanceDiffHelper (numOfEmojis numOfShortCharacters numOfLongCharacters : nat) : Q :=
  (inject_Z (Z.of_nat numOfEmojis) + half * inject_Z (Z.of_nat numOfLongCharacters)
   - half * inject_Z (Z.of_nat numOfShortCharacters))%Q.

Definition Qnat (n : nat) : Q := inject_Z (Z.of_nat n).

(** [while (lastIndex < bound && cvp <= i) { if (cvp === i) { charIndex =
    lastIndex; break; } cvp++; lastIndex++; }]: returns the final
    [(lastIndex, cvp, charIndex)]. *)
Fixpoint walk_to (fuel : nat) (bound i lastIndex cvp charIndex : nat) : nat * nat * nat :=
  match fuel with
  | O => (lastIndex, cvp, charIndex)
  | S f =>
      if (lastIndex <? bound)%nat && (cvp <=? i)%nat then
        if (cvp =? i)%nat then (lastIndex, cvp, lastIndex)
        else walk_to f bound i (S lastIndex) (S cvp) charIndex
      else (lastIndex, cvp, charIndex)
  end.

(** The scan from the end shared by both branches of
    [calculateSlicePositionHelper]: [for (let i = totalLength - 1; i >= 0; i--)].
    [unit_width i rli] is the width of unit [i] and the regex [lastIndex]
    after computing it; [trailing_extra i] is the trailing-space step (0 or
    1) taken when the threshold is reached at [i]. *)
Section FromEnd.
Variable unit_width : nat -> nat -> Q * nat.
Variable trailing_extra : nat -> nat.
Variable targetWidth : Q.
Variable totalLength : nat.

Fixpoint from_end (k : nat) (rli : nat) (accumulatedWidth : Q) (slicePosition : nat) : Z :=
  match k with
  | O => - Z.of_nat totalLength
  | S i =>
      let '(w, rli') := unit_width i rli in
      let acc := (accumulatedWidth + w)%Q in
      if Qle_bool targetWidth acc then - Z.of_nat (S slicePosition + trailing_extra i)
      else from_end i rli' acc (S slicePosition)
  end.
End FromEnd.

(** ** [visualSliceHelper] (no normalization) *)

(** The segments: every character before a [SIMPLE_EMOJI_REGEX] match on its
    own, the match as one segment, then the characters after the last match.
    The loop body runs once per match of [while ((match = exec(text)) !== null)]. *)
Definition segment_step (text : list Z) (acc : list (list Z) * nat) (m : nat * nat)
    : list (list Z) * nat :=
  let '(segments, lastIndex) := acc in
  let '(index, lastIndex') := m in
  (segments ++ (if (lastIndex <? index)%nat then for_of (str_slice text lastIndex index) else [])
            ++ [str_slice text index lastIndex'], lastIndex').

Definition visual_segments (text : list Z) : list (list Z) :=
  let '(segments, lastIndex) :=
    fold_left (segment_step text) (all_matches SIMPLE_EMOJI_REGEX text) ([], 0%nat) in
  if (lastIndex <? length text)%nat then segments ++ for_of (drop lastIndex text) else segments.

Definition visualSliceHelper (text : list Z) (start : Z) (end_ : option Z) : list Z :=
  match text with
  | [] => []
  | _ =>
      let segments := visual_segments text in
      let totalLength := Z.of_nat (length segments) in
      if totalLength <=? start then []
      else
        let normalizedStart := if start <? 0 then Z.max 0 (totalLength + start) else start in
        let normalizedEnd :=
          match end_ with
          | None => totalLength
          | Some e => if e <? 0 then Z.max 0 (totalLength + e) else e
          end in
        let normalizedStart := Z.max 0 (Z.min normalizedStart totalLength) in
        let normalizedEnd := Z.max 0 (Z.min normalizedEnd totalLength) in
        if normalizedEnd <=? normalizedStart then []
        else concat (take (Z.to_nat (normalizedEnd - normalizedStart))
                          (drop (Z.to_nat normalizedStart) segments))
  end.

(** ** The helpers that normalize their input *)

Section Helpers.
(** [text.normalize("NFC")], as returned by [getNormalizedString]. *)
Variable normalize : list Z -> list Z.

(** One iteration of the [while] loop over the [EMOJI_REGEX] matches. *)
Definition unit_count_step (acc : nat * nat * nat) (m : nat * nat) : nat * nat * nat :=
  let '(visualLength, emojiCount, lastIndex) := acc in
  let '(index, lastIndex') := m in
  (visualLength + (index - lastIndex) + 1, S emojiCount, lastIndex')%nat.

(** Visual units: every UTF-16 unit outside an [EMOJI_REGEX] match, and
    every match. Returns [(visualLength, emojiCount)]. *)
Definition emoji_unit_count (normalized : list Z) : nat * nat :=
  let '(visualLength, emojiCount, lastIndex) :=
    fold_left unit_count_step (all_matches EMOJI_REGEX normalized) (0%nat, 0%nat, 0%nat) in
  ((if (lastIndex <? length normalized)%nat
    then visualLength + (length normalized - lastIndex) else visualLength)%nat, emojiCount).

Definition getVisualLengthHelper (text : list Z) (customShortCharacters customLongCharacters : list (list Z)) : VisualProfile :=
  match text with
  | [] => {| visualLength := 0; shortCharCount := 0; emojiCount := 0; longCharCount := 0 |}
  | _ =>
      let '(vl, ec) := emoji_unit_count (normalize text) in
      {| visualLength := vl;
         shortCharCount := countShortCharactersHelper text customShortCharacters;
         emojiCount := ec;
         longCharCount :=
           length (List.filter (set_has (customLongCharacters ++ LONG_CHARACTERS)) (for_of text)) |}
  end.

(** Sum of [getCharWidth(normalized[i])] for [lastIndex <= i < index]. *)
Definition range_width (charWidth : Q) (customShort customLong : list (list Z))
    (normalized : list Z) (lastIndex index : nat) : Q :=
  fold_left (fun w i => (w + getCharWidth charWidth customShort customLong (char_at normalized i))%Q)
    (seq lastIndex (index - lastIndex)) 0%Q.

(** One iteration of the monospaced [while] loop over the [EMOJI_REGEX] matches. *)
Definition mono_width_step (charWidth : Q) (acc : Q * nat) (m : nat * nat) : Q * nat :=
  let '(totalWidth, lastIndex) := acc in
  let '(index, lastIndex') := m in
  ((totalWidth + (if (lastIndex <? index)%nat then Qnat (index - lastIndex) * charWidth else 0)
    + charWidth * 2)%Q, lastIndex').

(** One iteration of the proportional [while] loop over the [EMOJI_REGEX] matches. *)
Definition prop_width_step (charWidth : Q) (customShort customLong : list (list Z))
    (normalized : list Z) (acc : Q * nat) (m : nat * nat) : Q * nat :=
  let '(totalWidth, lastIndex) := acc in
  let '(index, lastIndex') := m in
  ((totalWidth + range_width charWidth customShort customLong normalized lastIndex index
    + charWidth * 2)%Q, lastIndex').

Definition calculateStringWidthHelper (text : list Z) (charWidth : Q) (isMonospaced : bool)
    (customShortCharacters customLongCharacters : list (list Z)) : Q :=
  match text with
  | [] => 0%Q
  | _ =>
      let normalized := normalize text in
      let ms := all_matches EMOJI_REGEX normalized in
      if isMonospaced then
        let '(totalWidth, lastIndex) := fold_left (mono_width_step charWidth) ms (0%Q, 0%nat) in
        if (lastIndex <? length normalized)%nat
        then (totalWidth + Qnat (length normalized - lastIndex) * charWidth)%Q else totalWidth
      else
        let '(totalWidth, lastIndex) :=
          fold_left (prop_width_step charWidth customShortCharacters customLongCharacters normalized)
            ms (0%Q, 0%nat) in
        if (lastIndex <? length normalized)%nat
        then (totalWidth + range_width charWidth customShortCharacters customLongCharacters
                             normalized lastIndex (length normalized))%Q
        else totalWidth
  end.

(** One iteration of the loop that marks the visual positions of the matches. *)
Definition position_step (acc : list nat * nat * nat) (m : nat * nat) : list nat * nat * nat :=
  let '(positions, visualPos, lastIndex) := acc in
  let '(index, lastIndex') := m in
  let visualPos := (visualPos + (index - lastIndex))%nat in
  (positions ++ [visualPos], S visualPos, lastIndex').

(** [emojiPositions] (visual positions of the [EMOJI_REGEX] matches) and
    the total visual length, as the marking loops compute them. *)
Definition emoji_positions (normalized : list Z) : list nat * nat :=
  let '(positions, visualPos, lastIndex) :=
    fold_left position_step (all_matches EMOJI_REGEX normalized) ([], 0%nat, 0%nat) in
  (positions, (visualPos + (length normalized - lastIndex))%nat).

Definition has_pos (positions : list nat) (i : nat) : bool := existsb (Nat.eqb i) positions.

(** Monospaced branch, trailing-space check: the [charIndex] the loop over
    the matches finds for visual position [j = i - 1]. *)
Fixpoint mono_prev_char_index (ms : list (nat * nat)) (j charIndex visualIndex lastIndex : nat) : nat :=
  match ms with
  | [] => charIndex
  | (index, lastIndex') :: ms' =>
      let '(brk, charIndex, visualIndex) :=
        if (lastIndex <? index)%nat then
          let regularChars := (index - lastIndex)%nat in
          if (j <? visualIndex + regularChars)%nat
          then (true, (lastIndex + (j - visualIndex))%nat, visualIndex)
          else (false, index, (visualIndex + regularChars)%nat)
        else (false, charIndex, visualIndex) in
      if brk then charIndex
      else if (visualIndex =? j)%nat then index
      else mono_prev_char_index ms' j lastIndex' (S visualIndex) lastIndex'
  end.

(** Proportional branch: the lookup of the character at visual position
    [i]. It starts from the regex's current [lastIndex] [rli] (the code does
    not reset it) and returns [(rli, lastIndex, cvp, charIndex)]. *)
Fixpoint prop_char_loop (fuel : nat) (normalized : list Z) (i rli lastIndex cvp charIndex : nat)
    : nat * nat * nat * nat :=
  match fuel with
  | O => (rli, lastIndex, cvp, charIndex)
  | S f =>
      match exec EMOJI_REGEX normalized rli with
      | (None, rli') => (rli', lastIndex, cvp, charIndex)
      | (Some (index, _), rli') =>
          let '(lastIndex, cvp, charIndex) :=
            walk_to (S (length normalized)) index i lastIndex cvp charIndex in
          if (cvp =? i)%nat then (rli', lastIndex, cvp, lastIndex)
          else prop_char_loop f normalized i rli' rli' (S cvp) charIndex
      end
  end.

(** Proportional branch, trailing-space check for position [j = i - 1]
    (the regex is reset first); returns [(lastIndex, cvp, charIndex)]. *)
Fixpoint prop_prev_loop (fuel : nat) (normalized : list Z) (j rli lastIndex cvp charIndex : nat)
    : nat * nat * nat :=
  match fuel with
  | O => (lastIndex, cvp, charIndex)
  | S f =>
      match exec EMOJI_REGEX normalized rli with
      | (None, _) => (lastIndex, cvp, charIndex)
      | (Some (index, _), rli') =>
          let '(lastIndex, cvp, charIndex) :=
            walk_to (S (length normalized)) index j lastIndex cvp charIndex in
          if (cvp =? j)%nat then (lastIndex, cvp, charIndex)
          else prop_prev_loop f normalized j rli' rli' (S cvp) charIndex
      end
  end.

Definition mono_unit_width (charWidth : Q) (emojiPositions : list nat) (i rli : nat) : Q * nat :=
  (if has_pos emojiPositions i then (charWidth * 2)%Q else charWidth, rli).

Definition mono_trailing_extra (normalized : list Z) (emojiPositions : list nat) (i : nat) : nat :=
  if (0 <? i)%nat && negb (has_pos emojiPositions (i - 1)) then
    let charIndex := mono_prev_char_index (all_matches EMOJI_REGEX normalized) (i - 1) 0 0 0 in
    if (charIndex <? length normalized)%nat && bool_decide (char_at normalized charIndex = [SPACE])
    then 1%nat else 0%nat
  else 0%nat.

Definition prop_unit_width (charWidth : Q) (customShort customLong : list (list Z))
    (normalized : list Z) (emojiPositions : list nat) (i rli : nat) : Q * nat :=
  if has_pos emojiPositions i then ((charWidth * 2)%Q, rli)
  else
    let '(rli', lastIndex, cvp, charIndex) :=
      prop_char_loop (S (length normalized)) normalized i rli 0 0 0 in
    let '(_, _, charIndex) :=
      walk_to (S (length normalized)) (length normalized) i lastIndex cvp charIndex in
    (getCharWidth charWidth customShort customLong (char_at normalized charIndex), rli').

Definition prop_trailing_extra (normalized : list Z) (emojiPositions : list nat) (i : nat) : nat :=
  if (0 <? i)%nat && negb (has_pos emojiPositions (i - 1)) then
    let '(lastIndex, cvp, charIndex) :=
      prop_prev_loop (S (length normalized)) normalized (i - 1) 0 0 0 0 in
    let '(_, _, charIndex) :=
      walk_to (S (length normalized)) (length normalized) (i - 1) lastIndex cvp charIndex in
    if bool_decide (char_at normalized charIndex = [SPACE]) then 1%nat else 0%nat
  else 0%nat.

(** The result is [-slicePosition] (0 on the early return). *)
Definition calculateSlicePositionHelper (text : list Z) (charWidth targetWidth : Q)
    (isMonospaced : bool) (customShortCharacters customLongCharacters : list (list Z)) : Z :=
  if match text with [] => true | _ => false end || Qle_bool targetWidth 0 then 0
  else
    let normalized := normalize text in
    if isMonospaced then
      let totalLength := fst (emoji_unit_count normalized) in
      let emojiPositions := fst (emoji_positions normalized) in
      from_end (mono_unit_width charWidth emojiPositions)
               (mono_trailing_extra normalized emojiPositions)
               targetWidth totalLength totalLength 0 0 0
    else
      let '(emojiPositions, totalVisualLength) := emoji_positions normalized in
      from_end (prop_unit_width charWidth customShortCharacters customLongCharacters
                                normalized emojiPositions)
               (prop_trailing_extra normalized emojiPositions)
               targetWidth totalVisualLength totalVisualLength 0 0 0.
End Helpers.

(** ** [calculateTruncatedText] of the current [RNShowMoreTextComponent] *)

(** [String.prototype.trim]: WhiteSpace and LineTerminator units. *)
Definition is_js_whitespace (u : Z) : bool :=
  existsb (Z.eqb u)
    [0x09; 0x0A; 0x0B; 0x0C; 0x0D; 0x20; 0xA0; 0x1680; 0x2000; 0x2001; 0x2002; 0x2003;
     0x2004; 0x2005; 0x2006; 0x2007; 0x2008; 0x2009; 0x200A; 0x2028; 0x2029; 0x202F;
     0x205F; 0x3000; 0xFEFF].

Fixpoint trim_start (s : list Z) : list Z :=
  match s with
  | u :: r => if is_js_whitespace u then trim_start r else s
  | [] => []
  end.

Definition trim (s : list Z) : list Z := rev (trim_start (rev (trim_start s))).

(** [s.endsWith("\n") ? s.slice(0, -1) : s] *)
Definition strip_newline (s : list Z) : list Z :=
  match last s with
  | Some u => if u =? NEWLINE then removelast s else s
  | None => s
  end.

Definition SHOW_MORE : list Z := [0x53; 0x68; 0x6F; 0x77; 0x20; 0x6D; 0x6F; 0x72; 0x65].

(** [`... ${(readMoreText || "Show more").trim()}`]; [None] is [undefined]. *)
Definition readMoreTextContent (readMoreText : option (list Z)) : list Z :=
  [0x2E; 0x2E; 0x2E; SPACE] ++
  trim (match readMoreText with Some ((_ :: _) as t) => t | _ => SHOW_MORE end).

Record TextLayoutLine := { line_text : list Z; line_width : Q }.

(** [array[k]] for a number [k]: [undefined] below 0 or past the end. *)
Definition js_index {A} (l : list A) (k : Z) : option A :=
  if k <? 0 then None else l !! Z.to_nat k.

(** What one call leaves behind: the early return, the [TypeError] of
    [textLinesRef.current[numberOfLines - 1].width] on an undefined line, or
    [isNeedReadMore] with the text shown ([fullTextRef.current], which the
    layout effect set to [children] before measuring). *)
Inductive Calculation :=
| Skipped
| Threw
| Computed (isNeedReadMore : bool) (displayText : list Z).

Definition Qlt_bool (a b : Q) : bool := negb (Qle_bool b a).

Section Engine.
Variable normalize : list Z -> list Z.

(** [avgCharWidth] after the balance correction, from the last visible
    line (trailing newline removed) and its measured width. *)
Definition estimateCharWidth (lastRowForWidthCalc : list Z) (lastRowWidth : Q)
    (shortWidthCharacters longWidthCharacters : list (list Z)) : Q :=
  let p := getVisualLengthHelper normalize lastRowForWidthCalc shortWidthCharacters longWidthCharacters in
  let avgCharWidth :=
    if (0 <? visualLength p)%nat then (lastRowWidth / Qnat (visualLength p))%Q else 0%Q in
  let balance := balanceDiffHelper (emojiCount p) (shortCharCount p) (longCharCount p) in
  if Qeq_bool balance 0 then avgCharWidth
  else (avgCharWidth *
        (if Qlt_bool balance 0 then 1 + Qabs balance / Qnat (visualLength p)
         else 1 - Qabs balance / Qnat (visualLength p)))%Q.

Definition calculateTruncatedText (children : list Z) (lines : list TextLayoutLine)
    (containerWidth : Q) (numberOfLines : Z) (readMoreText : option (list Z))
    (compensationSpaceAndroid : Q) (isMonospaced : bool)
    (shortWidthCharacters longWidthCharacters : list (list Z)) : Calculation :=
  if (length lines =? 0)%nat || Qeq_bool containerWidth 0 then Skipped
  else if numberOfLines <? Z.of_nat (length lines) then
    let visibleText := concat (map line_text (take (Z.to_nat numberOfLines) lines)) in
    let lastRow :=
      if numberOfLines <=? Z.of_nat (length lines) then js_index lines (numberOfLines - 1) else None in
    let lastRowForWidthCalc :=
      match lastRow with Some r => strip_newline (line_text r) | None => [] end in
    let avgCharWidth :=
      estimateCharWidth lastRowForWidthCalc
        (match lastRow with Some r => line_width r | None => 0%Q end)
        shortWidthCharacters longWidthCharacters in
    match js_index lines (numberOfLines - 1) with
    | None => Threw
    | Some lastLine =>
        let lastLineWidth := line_width lastLine in
        let readMoreTextLength :=
          calculateStringWidthHelper normalize (readMoreTextContent readMoreText)
            (if Qeq_bool avgCharWidth 0 then 1%Q else avgCharWidth)
            isMonospaced shortWidthCharacters longWidthCharacters in
        let targetLastLineWidth := (containerWidth - readMoreTextLength)%Q in
        let visibleText := strip_newline visibleText in
        let sliceEndOffset :=
          if Qle_bool lastLineWidth targetLastLineWidth then None
          else Some (calculateSlicePositionHelper normalize lastRowForWidthCalc avgCharWidth
                       (readMoreTextLength + compensationSpaceAndroid * avgCharWidth)%Q
                       isMonospaced shortWidthCharacters longWidthCharacters) in
        Computed true
          (trim (visualSliceHelper visibleText 0
                   (match sliceEndOffset with
                    | Some o => if o =? 0 then None else Some o
                    | None => None
                    end)))
    end
  else Computed false children.

(** The engine as the spec describes the fallback: one per-unit width
    [unitWidthPx = avgCharWidth || 1] used by the affordance width, the
    compensation margin and the slice computation. *)
Definition spec_truncation_unit_fallback (children : list Z) (lines : list TextLayoutLine)
    (containerWidth : Q) (numberOfLines : Z) (readMoreText : option (list Z))
    (compensationUnits : Q) (isMonospaced : bool)
    (shortWidthCharacters longWidthCharacters : list (list Z)) : Calculation :=
  if (length lines =? 0)%nat || Qeq_bool containerWidth 0 then Skipped
  else if numberOfLines <? Z.of_nat (length lines) then
    let visibleText := concat (map line_text (take (Z.to_nat numberOfLines) lines)) in
    let lastRow :=
      if numberOfLines <=? Z.of_nat (length lines) then js_index lines (numberOfLines - 1) else None in
    let lastRowForWidthCalc :=
      match lastRow with Some r => strip_newline (line_text r) | None => [] end in
    let estimate :=
      estimateCharWidth lastRowForWidthCalc
        (match lastRow with Some r => line_width r | None => 0%Q end)
        shortWidthCharacters longWidthCharacters in
    let unitWidthPx := if Qeq_bool estimate 0 then 1%Q else estimate in
    match js_index lines (numberOfLines - 1) with
    | None => Threw
    | Some lastLine =>
        let affordanceWidth :=
          calculateStringWidthHelper normalize (readMoreTextContent readMoreText)
            unitWidthPx isMonospaced shortWidthCharacters longWidthCharacters in
        let sliceEndOffset :=
          if Qle_bool (line_width lastLine) (containerWidth - affordanceWidth) then None
          else Some (calculateSlicePositionHelper normalize lastRowForWidthCalc unitWidthPx
                       (affordanceWidth + compensationUnits * unitWidthPx)%Q
                       isMonospaced shortWidthCharacters longWidthCharacters) in
        Computed true
          (trim (visualSliceHelper (strip_newline visibleText) 0
                   (match sliceEndOffset with
                    | Some o => if o =? 0 then None else Some o
                    | None => None
                    end)))
    end
  else Computed false children.
End Engine.

(** ** The normalization cache of helper.ts *)

Section Cache.
Variable normalize : list Z -> list Z.

(** [getNormalizedString] with the module-level [normalizeCache]
    ([Map<string, string>]) passed explicitly: returns the normalized
    string and the cache after the call. *)
Definition getNormalizedString (normalizeCache : gmap (list Z) (list Z)) (text : list Z)
    : list Z * gmap (list Z) (list Z) :=
  match normalizeCache !! text with
  | Some cached => (cached, normalizeCache)
  | None =>
      let normalized := normalize text in
      let normalizeCache := if (1000 <? size normalizeCache)%nat then ∅ else normalizeCache in
      (normalized, <[text := normalized]> normalizeCache)
  end.

(** The cache states a program can observe: the empty map the module
    starts with, then whatever calls leave behind. *)
Inductive cache_reachable : gmap (list Z) (list Z) -> Prop :=
| cache_initial : cache_reachable ∅
| cache_after_call c text : cache_reachable c -> cache_reachable (getNormalizedString c text).2.
End Cache.

(** ** The slice position in the spec's words

    Visual units, from the [EMOJI_REGEX] segmentation of the normalized text:
    a match is one emoji unit, any other code point one unit. The number of
    units dropped is the least [k] whose last [k] units reach [targetWidth],
    plus one when the unit before the cut is a plain space; all units when
    the whole text does not reach it. *)
Section SpecSlice.
Variable normalize : list Z -> list Z.

Definition spec_visual_units (normalized : list Z) : list (list Z * bool) :=
  let '(units, lastIndex) :=
    fold_left
      (fun '(units, lastIndex) '(index, lastIndex') =>
         (units ++ map (fun c => (c, false)) (for_of (str_slice normalized lastIndex index))
                ++ [(str_slice normalized index lastIndex', true)], lastIndex'))
      (all_matches EMOJI_REGEX normalized) ([], 0%nat) in
  units ++ map (fun c => (c, false)) (for_of (drop lastIndex normalized)).

Definition spec_unit_width (charWidth : Q) (isMonospaced : bool)
    (customShort customLong : list (list Z)) (u : list Z * bool) : Q :=
  if u.2 then (charWidth * 2)%Q
  else if isMonospaced then charWidth
  else getCharWidth charWidth customShort customLong u.1.

Fixpoint spec_drop_from_end (w : list Z * bool -> Q) (targetWidth : Q)
    (units_from_end : list (list Z * bool)) (accumulated : Q) (consumed total : nat) : nat :=
  match units_from_end with
  | [] => total
  | u :: before =>
      let accumulated := (accumulated + w u)%Q in
      if Qle_bool targetWidth accumulated then
        (S consumed +
         match before with
         | (c, false) :: _ => if bool_decide (c = [SPACE]) then 1 else 0
         | _ => 0
         end)%nat
      else spec_drop_from_end w targetWidth before accumulated (S consumed) total
  end.

Definition spec_units_to_drop (text : list Z) (charWidth targetWidth : Q) (isMonospaced : bool)
    (customShort customLong : list (list Z)) : nat :=
  if match text with [] => true | _ => false end || Qle_bool targetWidth 0 then 0%nat
  else
    let units := spec_visual_units (normalize text) in
    spec_drop_from_end (spec_unit_width charWidth isMonospaced customShort customLong)
      targetWidth (rev units) 0 0 (length units).
End SpecSlice.

(** ** The event handlers and the render of [RNShowMoreTextComponent] *)

(** The props the handlers read. A handler is a [useCallback] closure: it
    sees the props of the render that last recreated it (for
    [onContainerLayout], the render where [numberOfLines] last changed),
    passed here as one value. *)
Record ShowMoreProps := {
  children : list Z;
  numberOfLines : Z;
  readMoreText : option (list Z);
  readLessText : option (list Z);
  compensationSpaceAndroid : Q;
  isMonospaced : bool;
  shortWidthCharacters : list (list Z);
  longWidthCharacters : list (list Z)
}.

(** The two [useState] values and the refs' [.current] values. *)
Record ComponentState := {
  isNeedReadMore : bool;
  renderTrigger : bool;
  isShowingFullTextRef : bool;
  fullTextRef : list Z;
  truncatedTextRef : list Z;
  containerWidthRef : Q;
  textLinesRef : list TextLayoutLine;
  isCalculationCompleteRef : bool;
  hasPropsChangedRef : bool;
  oldChildren : list Z
}.

(** What the component renders: the outer [Text]'s content, its
    [numberOfLines] ([None] is [undefined]), whether its opacity is forced
    to 0, and the content of the inner "read more" [Text] if rendered. *)
Record Rendered := {
  shown_text : list Z;
  line_limit : option Z;
  forced_transparent : bool;
  label : option (list Z)
}.

Definition SHOW_LESS : list Z := [0x53; 0x68; 0x6F; 0x77; 0x20; 0x6C; 0x65; 0x73; 0x73].

(** [readLessText || "Show less"] *)
Definition readLessTextContent (readLessText : option (list Z)) : list Z :=
  match readLessText with Some ((_ :: _) as t) => t | _ => SHOW_LESS end.

(** The state after the first render: [useState(false)] and [useRef(...)]. *)
Definition initial_state (P : ShowMoreProps) : ComponentState :=
  {| isNeedReadMore := false; renderTrigger := false; isShowingFullTextRef := false;
     fullTextRef := children P; truncatedTextRef := children P; containerWidthRef := 0;
     textLinesRef := []; isCalculationCompleteRef := false; hasPropsChangedRef := false;
     oldChildren := children P |}.

(** The body of the [useLayoutEffect] on [children], [style], [numberOfLines]. *)
Definition layout_effect (P : ShowMoreProps) (st : ComponentState) : ComponentState :=
  {| isNeedReadMore := isNeedReadMore st; renderTrigger := renderTrigger st;
     isShowingFullTextRef := false; fullTextRef := children P;
     truncatedTextRef := truncatedTextRef st; containerWidthRef := containerWidthRef st;
     textLinesRef := []; isCalculationCompleteRef := isCalculationCompleteRef st;
     hasPropsChangedRef := true; oldChildren := children P |}.

(** The effect's cleanup, run before the effect runs again. *)
Definition effect_cleanup (st : ComponentState) : ComponentState :=
  {| isNeedReadMore := isNeedReadMore st; renderTrigger := renderTrigger st;
     isShowingFullTextRef := isShowingFullTextRef st; fullTextRef := fullTextRef st;
     truncatedTextRef := truncatedTextRef st; containerWidthRef := containerWidthRef st;
     textLinesRef := textLinesRef st; isCalculationCompleteRef := false;
     hasPropsChangedRef := hasPropsChangedRef st; oldChildren := oldChildren st |}.

Definition mount (P : ShowMoreProps) : ComponentState := layout_effect P (initial_state P).

(** A change of [children], [style] or [numberOfLines] to the props [P]. *)
Definition props_change (P : ShowMoreProps) (st : ComponentState) : ComponentState :=
  layout_effect P (effect_cleanup st).

Definition with_textLines (st : ComponentState) (lines : list TextLayoutLine) : ComponentState :=
  {| isNeedReadMore := isNeedReadMore st; renderTrigger := renderTrigger st;
     isShowingFullTextRef := isShowingFullTextRef st; fullTextRef := fullTextRef st;
     truncatedTextRef := truncatedTextRef st; containerWidthRef := containerWidthRef st;
     textLinesRef := lines; isCalculationCompleteRef := isCalculationCompleteRef st;
     hasPropsChangedRef := hasPropsChangedRef st; oldChildren := oldChildren st |}.

Definition with_containerWidth (st : ComponentState) (w : Q) : ComponentState :=
  {| isNeedReadMore := isNeedReadMore st; renderTrigger := renderTrigger st;
     isShowingFullTextRef := isShowingFullTextRef st; fullTextRef := fullTextRef st;
     truncatedTextRef := truncatedTextRef st; containerWidthRef := w;
     textLinesRef := textLinesRef st; isCalculationCompleteRef := isCalculationCompleteRef st;
     hasPropsChangedRef := hasPropsChangedRef st; oldChildren := oldChildren st |}.

Section Component.
Variable normalize : list Z -> list Z.

(** The [calculateTruncatedText] callback acting on the refs and state; the
    boolean is [true] when its [TypeError] escapes. The refs written before
    the throw keep their values. *)
Definition calculateTruncatedText_run (P : ShowMoreProps) (st : ComponentState)
    : ComponentState * bool :=
  match calculateTruncatedText normalize (children P) (textLinesRef st) (containerWidthRef st)
          (numberOfLines P) (readMoreText P) (compensationSpaceAndroid P) (isMonospaced P)
          (shortWidthCharacters P) (longWidthCharacters P) with
  | Skipped => (st, false)
  | Threw =>
      ({| isNeedReadMore := isNeedReadMore st; renderTrigger := renderTrigger st;
          isShowingFullTextRef := isShowingFullTextRef st; fullTextRef := fullTextRef st;
          truncatedTextRef := truncatedTextRef st; containerWidthRef := containerWidthRef st;
          textLinesRef := textLinesRef st; isCalculationCompleteRef := true;
          hasPropsChangedRef := false; oldChildren := oldChildren st |}, true)
  | Computed true t =>
      ({| isNeedReadMore := true; renderTrigger := negb (renderTrigger st);
          isShowingFullTextRef := isShowingFullTextRef st; fullTextRef := t;
          truncatedTextRef := t; containerWidthRef := containerWidthRef st;
          textLinesRef := textLinesRef st; isCalculationCompleteRef := true;
          hasPropsChangedRef := false; oldChildren := oldChildren st |}, false)
  | Computed false _ =>
      ({| isNeedReadMore := false; renderTrigger := negb (renderTrigger st);
          isShowingFullTextRef := isShowingFullTextRef st; fullTextRef := fullTextRef st;
          truncatedTextRef := truncatedTextRef st; containerWidthRef := containerWidthRef st;
          textLinesRef := textLinesRef st; isCalculationCompleteRef := true;
          hasPropsChangedRef := false; oldChildren := oldChildren st |}, false)
  end.

(** [onTextLayoutHandler]; [None] is a missing [event.nativeEvent.lines].
    The forwarded [onTextLayout] prop is not modelled. [P] is the props of
    the [calculateTruncatedText] closure the handler holds: its deps omit
    [calculateTruncatedText], so after a re-render that changes only
    [children], [isMonospaced], [shortWidthCharacters] or
    [longWidthCharacters] it still holds an earlier one. *)
Definition onTextLayoutHandler (P : ShowMoreProps) (st : ComponentState)
    (lines : option (list TextLayoutLine)) : ComponentState * bool :=
  if isCalculationCompleteRef st then (st, false)
  else calculateTruncatedText_run P
         (with_textLines st (match lines with Some l => l | None => [] end)).

(** [onContainerLayout]; [None] is a missing [event.nativeEvent.layout.width]. *)
Definition onContainerLayout (P : ShowMoreProps) (st : ComponentState) (width : option Q)
    : ComponentState * bool :=
  if isCalculationCompleteRef st then (st, false)
  else calculateTruncatedText_run P
         (with_containerWidth st (match width with Some w => w | None => 0%Q end)).
End Component.

(** [toggleTextExpansion]; the forwarded [onPress] prop is not modelled. *)
Definition toggleTextExpansion (P : ShowMoreProps) (st : ComponentState) : ComponentState :=
  if isShowingFullTextRef st then
    {| isNeedReadMore := isNeedReadMore st; renderTrigger := negb (renderTrigger st);
       isShowingFullTextRef := false; fullTextRef := truncatedTextRef st;
       truncatedTextRef := truncatedTextRef st; containerWidthRef := containerWidthRef st;
       textLinesRef := textLinesRef st; isCalculationCompleteRef := isCalculationCompleteRef st;
       hasPropsChangedRef := hasPropsChangedRef st; oldChildren := oldChildren st |}
  else
    {| isNeedReadMore := isNeedReadMore st; renderTrigger := negb (renderTrigger st);
       isShowingFullTextRef := true; fullTextRef := children P;
       truncatedTextRef := truncatedTextRef st; containerWidthRef := containerWidthRef st;
       textLinesRef := textLinesRef st; isCalculationCompleteRef := isCalculationCompleteRef st;
       hasPropsChangedRef := hasPropsChangedRef st; oldChildren := oldChildren st |}.

(** The returned element. *)
Definition render (P : ShowMoreProps) (st : ComponentState) : Rendered :=
  let isNeedTrigger := negb (bool_decide (oldChildren st = children P)) in
  {| shown_text := if isNeedTrigger then children P else fullTextRef st;
     line_limit :=
       if isNeedReadMore st && negb (hasPropsChangedRef st) then None else Some (numberOfLines P);
     forced_transparent := isNeedTrigger || negb (isCalculationCompleteRef st);
     label :=
       if negb isNeedTrigger && isNeedReadMore st then
         Some (if isShowingFullTextRef st then SPACE :: readLessTextContent (readLessText P)
               else readMoreTextContent (readMoreText P))
       else None |}.

(** Layout events delivered to the handlers. *)
Inductive LayoutEvent :=
| TextLayout (lines : option (list TextLayoutLine))
| ContainerLayout (width : option Q).

Fixpoint layout_events (normalize : list Z -> list Z) (P : ShowMoreProps) (st : ComponentState)
    (evs : list LayoutEvent) : ComponentState :=
  match evs with
  | [] => st
  | TextLayout l :: evs' => layout_events normalize P (fst (onTextLayoutHandler normalize P st l)) evs'
  | ContainerLayout w :: evs' =>
      layout_events normalize P (fst (onContainerLayout normalize P st w)) evs'
  end.

(** A code unit that none of the atoms of [EMOJI_REGEX] matches and that
    never pairs with a neighbour into one code point: no surrogate, no
    [\p{Extended_Pictographic}], no regional indicator, not U+FE0F or
    U+200D. The space and the ASCII letters are such units. *)
Definition plain_unit (u : Z) : bool :=
  negb (is_high u) && negb (is_low u) && negb (is_ext_pict u) && negb (u =? VS16)
  && negb (u =? ZWJ) && negb (is_regional_indicator u).

(** ** Inputs used below *)

Definition text_x_yz : list Z := [0x78; SPACE; 0x79; 0x7A].
(** grinning face, "i", "b", grinning face, grinning face *)
Definition text_emoji_i_b : list Z := utf16 [0x1F600; 0x69; 0x62; 0x1F600; 0x1F600].
(** the flag of the United States: two regional indicators *)
Definition flag_us : list Z := utf16 [0x1F1FA; 0x1F1F8].
(** "iiii" *)
Definition text_iiii : list Z := [0x69; 0x69; 0x69; 0x69].
(** CJK ideograph U+20000, outside the BMP and not an emoji *)
Definition cjk_20000 : list Z := utf16 [0x20000].

(** Three layout lines, two shown; the second is a bare line break. *)
Definition lines_blank_second : list TextLayoutLine :=
  [{| line_text := [0x61; NEWLINE]; line_width := 10 |};
   {| line_text := [NEWLINE]; line_width := 0 |};
   {| line_text := [0x62]; line_width := 5 |}].

(** Three layout lines of "one two three four five", two shown. *)
Definition demo_lines : list TextLayoutLine :=
  [{| line_text := [0x6F; 0x6E; 0x65; SPACE; 0x74; 0x77; 0x6F; SPACE]; line_width := 80 |};
   {| line_text := [0x74; 0x68; 0x72; 0x65; 0x65; SPACE; 0x66; 0x6F; 0x75; 0x72]; line_width := 100 |};
   {| line_text := [0x66; 0x69; 0x76; 0x65]; line_width := 40 |}].

Definition demo_props (n : Z) : ShowMoreProps :=
  {| children := concat (map line_text demo_lines); numberOfLines := n;
     readMoreText := None; readLessText := None; compensationSpaceAndroid := 0;
     isMonospaced := false; shortWidthCharacters := []; longWidthCharacters := [] |}.

(** New props: other children, monospaced; the handlers still hold the
    calculation of [demo_props 2]. *)
Definition demo_props_mono : ShowMoreProps :=
  {| children := [0x61; SPACE; 0x62]; numberOfLines := 2;
     readMoreText := None; readLessText := None; compensationSpaceAndroid := 0;
     isMonospaced := true; shortWidthCharacters := []; longWidthCharacters := [] |}.

(** [demo_props 2] with custom labels "Read more" and "Less". *)
Definition demo_props_labels : ShowMoreProps :=
  {| children := concat (map line_text demo_lines); numberOfLines := 2;
     readMoreText := Some [0x52; 0x65; 0x61; 0x64; SPACE; 0x6D; 0x6F; 0x72; 0x65];
     readLessText := Some [0x4C; 0x65; 0x73; 0x73]; compensationSpaceAndroid := 0;
     isMonospaced := false; shortWidthCharacters := []; longWidthCharacters := [] |}.

(** The matches of a run of [exec] are ordered and inside the string. *)
Fixpoint match_chain (lastIndex : nat) (ms : list (nat * nat)) (len : nat) : Prop :=
  match ms with
  | [] => True
  | (i, e) :: ms' => (lastIndex <= i /\ i <= e /\ e <= len)%nat /\ match_chain e ms' len
  end.

(** A cache that maps every key to its normalization. *)
Definition cache_sound (normalize : list Z -> list Z) (c : gmap (list Z) (list Z)) : Prop :=
  forall k v, c !! k = Some v -> v = normalize k.

(** * Properties *)

(** ** Sanity checks of the models *)

Example nfc_composes : nfc [0x69; 0x323; 0x302; 0x41] = [0x1ECB; 0x302; 0x41]
  /\ nfc [0x65; 0x302; 0x323] = [0x1EC7] /\ nfc [0x1EC7] = [0x1EC7]
  /\ nfc [0x69; 0x301] = [0xED].
Proof. vm_compute. repeat split. Qed.

Example spec_units_x_yz : spec_units_to_drop nfc text_x_yz 1 2 true [] [] = 3%nat.
Proof. vm_compute. reflexivity. Qed.


(** ** Evaluations at concrete inputs *)

(** C1 (code bug): [visualSliceHelper] splits its text with
    [SIMPLE_EMOJI_REGEX], which has no regional-indicator alternative, so a
    flag is two segments: slicing the first visual unit of the US flag
    returns the lone regional indicator U+1F1FA. [EMOJI_REGEX], which the
    other helpers use, counts the same flag as one emoji unit. *)
Theorem visualSliceHelper_splits_flag :
  visualSliceHelper flag_us 0 (Some 1) = utf16 [0x1F1FA]
  /\ is_regional_indicator 0x1F1FA = true
  /\ length (visual_segments flag_us) = 2%nat
  /\ emoji_unit_count flag_us = (1%nat, 1%nat).
Proof. vm_compute. repeat split. Qed.

(** C4 (code bug): the monospaced branch checks [normalized[0]] instead of
    the unit before the cut when no emoji follows the last match (here: no
    emoji at all), so it drops 2 units of "x yz" for a target of 2 where the
    spec's rule drops 3 (the unit before the cut is a space). In the
    proportional branch the character lookup does not reset
    [EMOJI_REGEX.lastIndex]; on the text (emoji, i, b, emoji, emoji) with
    target 5.8 the lookup for "i" reads a surrogate unit of the first emoji,
    charges it 1 instead of 0.5, and the result is 4 units instead of 5. *)
Theorem calculateSlicePositionHelper_trailing_lookup_slips :
  calculateSlicePositionHelper nfc text_x_yz 1 2 true [] [] = (-2)%Z
  /\ spec_units_to_drop nfc text_x_yz 1 2 true [] [] = 3%nat
  /\ calculateSlicePositionHelper nfc text_emoji_i_b 1 (29 # 5) false [] [] = (-4)%Z
  /\ spec_units_to_drop nfc text_emoji_i_b 1 (29 # 5) false [] [] = 5%nat.
Proof. vm_compute. repeat split. Qed.

(** C5 (code bug): [getVisualLengthHelper] counts the characters outside
    emoji matches in UTF-16 units ([match.index - lastIndex],
    [normalized.length]), so the single code point U+20000 has visual length
    2, while [visualSliceHelper] splits it into one segment. *)
Theorem getVisualLengthHelper_counts_code_units :
  nfc cjk_20000 = cjk_20000
  /\ all_matches EMOJI_REGEX cjk_20000 = []
  /\ visualLength (getVisualLengthHelper nfc cjk_20000 [] []) = 2%nat
  /\ length (decode cjk_20000) = 1%nat
  /\ length (visual_segments cjk_20000) = 1%nat.
Proof. vm_compute. repeat split. Qed.

(** C2 (counterexample): with no line measurements the callback returns
    early, so nothing is resolved although [0 <= maxLines]. *)
Lemma calculateTruncatedText_no_lines_not_resolved :
  calculateTruncatedText nfc text_x_yz [] 300 3 None 0 false [] [] <> Computed false text_x_yz.
Proof. vm_compute. discriminate. Qed.

(** C6 (counterexample): a space is not a short character for
    [countShortCharactersHelper] with no overrides, and a monospaced width
    charges it a full unit. *)
Lemma space_not_counted_short :
  countShortCharactersHelper [SPACE] [] = 0%nat
  /\ calculateStringWidthHelper nfc [SPACE] 1 true [] [] = 1%Q.
Proof. vm_compute. split; reflexivity. Qed.

(** ** C2: measured text that fits *)

(** C2 (amended): once there is at least one line measurement and a nonzero
    container width, a line count of at most [numberOfLines] resolves to no
    "see more" and the full text [children]. *)
Theorem calculateTruncatedText_fits normalize children lines containerWidth numberOfLines
    readMoreText compensationSpaceAndroid isMonospaced shortWidthCharacters longWidthCharacters :
  lines <> [] ->
  ~ (containerWidth == 0)%Q ->
  Z.of_nat (length lines) <= numberOfLines ->
  calculateTruncatedText normalize children lines containerWidth numberOfLines readMoreText
    compensationSpaceAndroid isMonospaced shortWidthCharacters longWidthCharacters
  = Computed false children.
Proof.
  intros Hlines Hw Hn. unfold calculateTruncatedText.
  destruct lines as [|l ls]; [congruence|].
  assert (Qeq_bool containerWidth 0 = false) as ->.
  { destruct (Qeq_bool containerWidth 0) eqn:E; [|reflexivity].
    apply Qeq_bool_iff in E. contradiction. }
  simpl (length (l :: ls) =? 0)%nat. simpl orb.
  assert ((numberOfLines <? Z.of_nat (length (l :: ls))) = false) as -> by (apply Z.ltb_ge; lia).
  reflexivity.
Qed.

Lemma calculateTruncatedText_fits_witness :
  calculateTruncatedText nfc text_x_yz [{| line_text := text_x_yz; line_width := 40 |}] 300 1 None 0
    false [] [] = Computed false text_x_yz.
Proof.
  apply calculateTruncatedText_fits; [discriminate | vm_compute; discriminate | simpl; lia].
Defined.

(** ** C6: the space in the width computations *)

(** Two strings that agree except where both hold plain units. *)
Definition sim (u v : Z) : Prop := u = v \/ (plain_unit u = true /\ plain_unit v = true).

Lemma sim_refl l : Forall2 sim l l.
Proof. induction l; constructor; [left; reflexivity | assumption]. Qed.

Lemma plain_not_high u : plain_unit u = true -> is_high u = false.
Proof. unfold plain_unit. destruct (is_high u); [discriminate | reflexivity]. Qed.

Lemma plain_not_low u : plain_unit u = true -> is_low u = false.
Proof. unfold plain_unit. destruct (is_high u), (is_low u); simpl; congruence. Qed.

Lemma plain_not_pict u : plain_unit u = true -> is_ext_pict u = false.
Proof. unfold plain_unit. destruct (is_high u), (is_low u), (is_ext_pict u); simpl; congruence. Qed.

Lemma plain_not_ri u : plain_unit u = true -> is_regional_indicator u = false.
Proof.
  unfold plain_unit. destruct (is_regional_indicator u); [|reflexivity].
  rewrite !andb_false_r. discriminate.
Qed.

Lemma plain_neq u x : plain_unit u = true -> plain_unit x = false -> (u =? x) = false.
Proof. intros Hu Hx. destruct (Z.eqb_spec u x); [subst; congruence | reflexivity]. Qed.

Definition cp_rel (o1 o2 : option (Z * list Z)) : Prop :=
  match o1, o2 with
  | None, None => True
  | Some (c1, r1), Some (c2, r2) => sim c1 c2 /\ Forall2 sim r1 r2
  | _, _ => False
  end.

Definition opt_rel (o1 o2 : option (list Z)) : Prop :=
  match o1, o2 with
  | None, None => True
  | Some r1, Some r2 => Forall2 sim r1 r2
  | _, _ => False
  end.

Lemma cp_at_sim s1 s2 : Forall2 sim s1 s2 -> cp_rel (cp_at s1) (cp_at s2).
Proof.
  intros H. destruct H as [|u1 u2 r1 r2 Hu Hr]; [exact I|]. simpl.
  destruct Hu as [<- | [P1 P2]].
  - destruct (is_high u1); [|split; [left; reflexivity | exact Hr]].
    destruct Hr as [|l1 l2 r1 r2 Hl Hr]; [split; [left; reflexivity | constructor]|].
    destruct Hl as [<- | [Q1 Q2]].
    + destruct (is_low l1); split; try (left; reflexivity); try constructor; auto.
      left; reflexivity.
    + rewrite (plain_not_low l1 Q1), (plain_not_low l2 Q2).
      split; [left; reflexivity | constructor; [right; auto | exact Hr]].
  - rewrite (plain_not_high u1 P1), (plain_not_high u2 P2). split; [right; auto | exact Hr].
Qed.

Lemma pict_sim s1 s2 : Forall2 sim s1 s2 -> opt_rel (pict s1) (pict s2).
Proof.
  intros H. unfold pict. pose proof (cp_at_sim s1 s2 H) as Hc.
  destruct (cp_at s1) as [[c1 r1]|], (cp_at s2) as [[c2 r2]|]; try contradiction; [|exact I].
  destruct Hc as [[<- | [P1 P2]] Hr].
  - destruct (is_ext_pict c1); [exact Hr | exact I].
  - rewrite (plain_not_pict c1 P1), (plain_not_pict c2 P2). exact I.
Qed.

Lemma unit_is_sim x s1 s2 :
  plain_unit x = false -> Forall2 sim s1 s2 -> opt_rel (unit_is x s1) (unit_is x s2).
Proof.
  intros Hx H. destruct H as [|u1 u2 r1 r2 Hu Hr]; [exact I|]. simpl.
  destruct Hu as [<- | [P1 P2]].
  - destruct (u1 =? x); [exact Hr | exact I].
  - rewrite (plain_neq u1 x P1 Hx), (plain_neq u2 x P2 Hx). exact I.
Qed.

Lemma opt_vs16_sim s1 s2 : Forall2 sim s1 s2 -> Forall2 sim (opt_vs16 s1) (opt_vs16 s2).
Proof.
  intros H. unfold opt_vs16. pose proof (unit_is_sim VS16 s1 s2 eq_refl H) as Hu.
  destruct (unit_is VS16 s1), (unit_is VS16 s2); try contradiction; assumption.
Qed.

Lemma zwj_star_sim fuel s1 s2 :
  Forall2 sim s1 s2 -> Forall2 sim (zwj_star fuel s1) (zwj_star fuel s2).
Proof.
  revert s1 s2. induction fuel as [|f IH]; intros s1 s2 H; simpl; [exact H|].
  pose proof (unit_is_sim ZWJ s1 s2 eq_refl H) as Hu.
  destruct (unit_is ZWJ s1) as [r1|], (unit_is ZWJ s2) as [r2|]; try contradiction; [|exact H].
  pose proof (pict_sim r1 r2 Hu) as Hp.
  destruct (pict r1), (pict r2); try contradiction; [|exact H].
  apply IH, opt_vs16_sim, Hp.
Qed.

Lemma EMOJI_REGEX_sim s1 s2 : Forall2 sim s1 s2 -> opt_rel (EMOJI_REGEX s1) (EMOJI_REGEX s2).
Proof.
  intros H. unfold EMOJI_REGEX, emoji_sequence.
  rewrite (Forall2_length _ _ _ H).
  pose proof (pict_sim s1 s2 H) as Hp.
  destruct (pict s1), (pict s2); try contradiction.
  - apply zwj_star_sim, opt_vs16_sim, Hp.
  - unfold flag_pair. pose proof (cp_at_sim s1 s2 H) as Hc.
    destruct (cp_at s1) as [[c1 r1]|], (cp_at s2) as [[c2 r2]|]; try contradiction; [|exact I].
    destruct Hc as [[<- | [P1 P2]] Hr].
    + destruct (is_regional_indicator c1); [|exact I].
      pose proof (cp_at_sim r1 r2 Hr) as Hc.
      destruct (cp_at r1) as [[d1 q1]|], (cp_at r2) as [[d2 q2]|]; try contradiction; [|exact I].
      destruct Hc as [[<- | [Q1 Q2]] Hq].
      * destruct (is_regional_indicator d1); [exact Hq | exact I].
      * rewrite (plain_not_ri d1 Q1), (plain_not_ri d2 Q2). exact I.
    + rewrite (plain_not_ri c1 P1), (plain_not_ri c2 P2). exact I.
Qed.

Lemma scan_sim_bounded n t1 t2 pos :
  (length t1 <= n)%nat -> Forall2 sim t1 t2 -> scan EMOJI_REGEX t1 pos = scan EMOJI_REGEX t2 pos.
Proof.
  revert t1 t2 pos. induction n as [|n IH]; intros t1 t2 pos Hlen H.
  - destruct H; [reflexivity | simpl in Hlen; lia].
  - pose proof (EMOJI_REGEX_sim t1 t2 H) as He.
    destruct H as [|u1 u2 r1 r2 Hu Hr]; [reflexivity|].
    cbn [scan]. destruct (EMOJI_REGEX (u1 :: r1)) as [q1|], (EMOJI_REGEX (u2 :: r2)) as [q2|];
      try contradiction.
    + pose proof (Forall2_length _ _ _ He) as E1. pose proof (Forall2_length _ _ _ Hr) as E2.
      cbn [length]. rewrite E1, E2. reflexivity.
    + simpl in Hlen. destruct Hr as [|l1 l2 r1 r2 Hl Hr]; [reflexivity|].
      simpl in Hlen.
      assert (Hb : is_high u1 && is_low l1 = is_high u2 && is_low l2).
      { destruct Hu as [<- | [P1 P2]].
        - destruct Hl as [<- | [Q1 Q2]]; [reflexivity|].
          rewrite (plain_not_low l1 Q1), (plain_not_low l2 Q2), !andb_false_r. reflexivity.
        - rewrite (plain_not_high u1 P1), (plain_not_high u2 P2). reflexivity. }
      rewrite Hb. destruct (is_high u2 && is_low l2).
      * apply IH; [lia | exact Hr].
      * apply IH; [simpl; lia | constructor; assumption].
Qed.

Lemma all_matches_sim s1 s2 :
  Forall2 sim s1 s2 -> all_matches EMOJI_REGEX s1 = all_matches EMOJI_REGEX s2.
Proof.
  intros H. unfold all_matches. rewrite (Forall2_length _ _ _ H).
  generalize 0%nat as li. generalize (S (length s2)) as fuel.
  induction fuel as [|f IH]; intros li; [reflexivity|]. cbn [exec_loop].
  assert (He : exec EMOJI_REGEX s1 li = exec EMOJI_REGEX s2 li).
  { unfold exec. rewrite (Forall2_length _ _ _ H).
    rewrite (scan_sim_bounded (length (drop li s1)) (drop li s1) (drop li s2) li);
      [reflexivity | lia | apply Forall2_drop, H]. }
  rewrite He. destruct (exec EMOJI_REGEX s2 li) as [[m|] li']; [rewrite IH|]; reflexivity.
Qed.

Lemma scan_plain t pos : forallb plain_unit t = true -> scan EMOJI_REGEX t pos = None.
Proof.
  revert pos. induction t as [|u r IH]; intros pos H; [reflexivity|].
  simpl in H. apply andb_true_iff in H as [Hu Hr].
  cbn [scan].
  assert (He : EMOJI_REGEX (u :: r) = None).
  { unfold EMOJI_REGEX, emoji_sequence, pict, flag_pair. simpl.
    rewrite (plain_not_high u Hu), (plain_not_pict u Hu), (plain_not_ri u Hu). reflexivity. }
  rewrite He. destruct r as [|l r']; [reflexivity|].
  rewrite (plain_not_high u Hu). apply IH, Hr.
Qed.

Lemma all_matches_plain n : forallb plain_unit n = true -> all_matches EMOJI_REGEX n = [].
Proof.
  intros H. unfold all_matches. cbn [exec_loop]. unfold exec.
  replace (length n <? 0)%nat with false by (symmetry; apply Nat.ltb_ge; lia).
  rewrite drop_0, scan_plain by exact H. reflexivity.
Qed.

Lemma for_of_cons2 u l r :
  for_of (u :: l :: r) = if is_high u && is_low l then [u; l] :: for_of r else [u] :: for_of (l :: r).
Proof. reflexivity. Qed.

Lemma for_of_space_bounded k s1 s2 :
  (length s1 <= k)%nat -> for_of (s1 ++ SPACE :: s2) = for_of s1 ++ [SPACE] :: for_of s2.
Proof.
  revert s1. induction k as [|k IH]; intros s1 Hk.
  - destruct s1; [|simpl in Hk; lia]. simpl. destruct s2; reflexivity.
  - destruct s1 as [|u [|l r]].
    + simpl. destruct s2; reflexivity.
    + simpl. rewrite andb_false_r. f_equal. destruct s2; reflexivity.
    + simpl in Hk. cbn [app]. rewrite !for_of_cons2. destruct (is_high u && is_low l).
      * rewrite IH by lia. reflexivity.
      * change (l :: r ++ SPACE :: s2) with ((l :: r) ++ SPACE :: s2).
        rewrite IH by (simpl; lia). reflexivity.
Qed.

(** C6 (amended): for any override sets, the proportional per-unit width of
    a space is half a unit (the space test comes before the sets). A
    monospaced width charges a space a full unit: a text whose normalized
    form has only plain units (spaces, letters, ...) is charged one unit
    width per UTF-16 unit, and replacing a space anywhere in the normalized
    text by any plain unit leaves the monospaced width unchanged. The
    short-character count of [s1 + " " + s2] is the counts of [s1] and [s2]
    plus one exactly when the caller's short set lists the space. *)
Theorem space_width_and_short_count normalize charWidth customShort customLong :
  getCharWidth charWidth customShort customLong [SPACE] = (charWidth * half)%Q
  /\ (forall text, text <> [] -> forallb plain_unit (normalize text) = true ->
        (calculateStringWidthHelper normalize text charWidth true customShort customLong
         == Qnat (length (normalize text)) * charWidth)%Q)
  /\ (forall text text' a b x, text <> [] -> text' <> [] -> plain_unit x = true ->
        normalize text = a ++ SPACE :: b -> normalize text' = a ++ x :: b ->
        calculateStringWidthHelper normalize text charWidth true customShort customLong
        = calculateStringWidthHelper normalize text' charWidth true customShort customLong)
  /\ (forall s1 s2, countShortCharactersHelper (s1 ++ SPACE :: s2) customShort
        = (countShortCharactersHelper s1 customShort + countShortCharactersHelper s2 customShort
           + if set_has customShort [SPACE] then 1 else 0)%nat).
Proof.
  split; [|split; [|split]].
  - unfold getCharWidth. rewrite bool_decide_eq_true_2 by reflexivity. reflexivity.
  - intros text Ht Hp. unfold calculateStringWidthHelper. destruct text as [|t0 tr]; [congruence|].
    rewrite (all_matches_plain _ Hp). cbn [fold_left].
    destruct (0 <? length (normalize (t0 :: tr)))%nat eqn:E.
    + rewrite Nat.sub_0_r. ring.
    + apply Nat.ltb_ge in E. replace (length (normalize (t0 :: tr))) with 0%nat by lia.
      unfold Qnat. simpl. ring.
  - intros text text' a b x Ht Ht' Hx Hn Hn'. unfold calculateStringWidthHelper.
    destruct text as [|t0 tr]; [congruence|]. destruct text' as [|t0' tr']; [congruence|].
    rewrite Hn, Hn'.
    assert (Hs : Forall2 sim (a ++ SPACE :: b) (a ++ x :: b)).
    { apply Forall2_app; [apply sim_refl|]. constructor; [right; split; [reflexivity | exact Hx]|].
      apply sim_refl. }
    rewrite (all_matches_sim _ _ Hs), (Forall2_length _ _ _ Hs). reflexivity.
  - intros s1 s2. unfold countShortCharactersHelper.
    rewrite (for_of_space_bounded (length s1)) by lia.
    rewrite List.filter_app, length_app. cbn [List.filter].
    assert (Hsp : set_has (customShort ++ SHORT_CHARACTERS) [SPACE] = set_has customShort [SPACE]).
    { unfold set_has. rewrite existsb_app.
      assert (existsb (fun x => bool_decide (x = [SPACE])) SHORT_CHARACTERS = false) as -> by reflexivity.
      apply orb_false_r. }
    rewrite Hsp. destruct (set_has customShort [SPACE]); simpl; lia.
Qed.

Lemma space_width_and_short_count_witness :
  (getCharWidth 1 [] [] [SPACE] = (1 * half)%Q
   /\ (calculateStringWidthHelper nfc text_x_yz 1 true [] [] == Qnat 4 * 1)%Q
   /\ calculateStringWidthHelper nfc text_x_yz 1 true [] []
      = calculateStringWidthHelper nfc [0x78; 0x69; 0x79; 0x7A] 1 true [] []
   /\ countShortCharactersHelper ([0x78] ++ SPACE :: [0x69]) [[SPACE]]
      = (countShortCharactersHelper [0x78]%Z [[SPACE]] + countShortCharactersHelper [0x69]%Z [[SPACE]]
         + if set_has [[SPACE]] [SPACE] then 1 else 0)%nat).
Proof.
  destruct (space_width_and_short_count nfc 1 [] []) as [H1 [H2 [H3 _]]].
  destruct (space_width_and_short_count nfc 1 [[SPACE]] []) as [_ [_ [_ H4]]].
  split; [exact H1|]. split; [|split].
  - apply (H2 text_x_yz); [discriminate | reflexivity].
  - apply (H3 text_x_yz [0x78; 0x69; 0x79; 0x7A] [0x78] [0x79; 0x7A] 0x69);
      [discriminate | discriminate | reflexivity | reflexivity | reflexivity].
  - apply H4.
Defined.

(** ** C3: the balance correction *)

(** C3: on a last line of nonzero visual length, [avgCharWidth] is the
    measured width over the visual length, scaled by [1 + |balance|/length]
    when [balance < 0], by [1 - |balance|/length] when [balance > 0], and
    unscaled when [balance = 0]. *)
Theorem estimateCharWidth_balance_correction normalize lastRowForWidthCalc lastRowWidth
    shortWidthCharacters longWidthCharacters :
  let p := getVisualLengthHelper normalize lastRowForWidthCalc shortWidthCharacters longWidthCharacters in
  let vl := Qnat (visualLength p) in
  let balance := balanceDiffHelper (emojiCount p) (shortCharCount p) (longCharCount p) in
  let estimate :=
    estimateCharWidth normalize lastRowForWidthCalc lastRowWidth shortWidthCharacters longWidthCharacters in
  (0 < visualLength p)%nat ->
  ((balance < 0)%Q -> (estimate == lastRowWidth / vl * (1 + Qabs balance / vl))%Q)
  /\ ((0 < balance)%Q -> (estimate == lastRowWidth / vl * (1 - Qabs balance / vl))%Q)
  /\ ((balance == 0)%Q -> (estimate == lastRowWidth / vl)%Q).
Proof.
  intros p vl balance estimate Hvl. subst estimate.
  unfold estimateCharWidth. fold p. fold vl. fold balance.
  rewrite (proj2 (Nat.ltb_lt _ _) Hvl).
  split; [|split]; intros Hb.
  - assert (Qeq_bool balance 0 = false) as ->.
    { apply not_true_iff_false. intros E. apply Qeq_bool_iff in E. rewrite E in Hb.
      discriminate Hb. }
    unfold Qlt_bool. assert (Qle_bool 0 balance = false) as ->.
    { apply not_true_iff_false. intros E. apply Qle_bool_iff in E. apply Qle_not_lt in E. tauto. }
    reflexivity.
  - assert (Qeq_bool balance 0 = false) as ->.
    { apply not_true_iff_false. intros E. apply Qeq_bool_iff in E. rewrite E in Hb.
      discriminate Hb. }
    unfold Qlt_bool. assert (Qle_bool 0 balance = true) as -> by (apply Qle_bool_iff, Qlt_le_weak, Hb).
    reflexivity.
  - assert (Qeq_bool balance 0 = true) as -> by (apply Qeq_bool_iff, Hb).
    reflexivity.
Qed.

(** A last line "iiii" measured 20px wide: four short characters. *)
Lemma estimateCharWidth_balance_correction_witness :
  (0 < visualLength (getVisualLengthHelper nfc text_iiii [] []))%nat /\
  (let p := getVisualLengthHelper nfc text_iiii [] [] in
   let vl := Qnat (visualLength p) in
   let balance := balanceDiffHelper (emojiCount p) (shortCharCount p) (longCharCount p) in
   let estimate := estimateCharWidth nfc text_iiii 20 [] [] in
   ((balance < 0)%Q -> (estimate == 20 / vl * (1 + Qabs balance / vl))%Q)
   /\ ((0 < balance)%Q -> (estimate == 20 / vl * (1 - Qabs balance / vl))%Q)
   /\ ((balance == 0)%Q -> (estimate == 20 / vl)%Q)).
Proof.
  split; [vm_compute; lia|].
  apply (estimateCharWidth_balance_correction nfc text_iiii 20 [] []).
  vm_compute. lia.
Defined.

(** ** C9: the normalization cache *)

Lemma getNormalizedString_sound normalize c text :
  cache_sound normalize c ->
  (getNormalizedString normalize c text).1 = normalize text
  /\ cache_sound normalize (getNormalizedString normalize c text).2.
Proof.
  intros Hc. unfold getNormalizedString.
  destruct (c !! text) as [v|] eqn:E; simpl.
  - split; [apply Hc, E | exact Hc].
  - split; [reflexivity|].
    intros k v Hk. destruct (decide (k = text)) as [->|Hne].
    + rewrite lookup_insert_eq in Hk. congruence.
    + rewrite lookup_insert_ne in Hk by congruence.
      destruct (1000 <? size c)%nat.
      * rewrite lookup_empty in Hk. discriminate.
      * apply Hc, Hk.
Qed.

Lemma cache_reachable_sound normalize c :
  cache_reachable normalize c -> cache_sound normalize c.
Proof.
  induction 1 as [|c text _ IH].
  - intros k v Hk. rewrite lookup_empty in Hk. discriminate.
  - apply getNormalizedString_sound, IH.
Qed.

(** C9: in every cache state the program can reach, [getNormalizedString]
    returns exactly the normalization of its input: the cache never changes
    a result. *)
Theorem getNormalizedString_is_normalize normalize c text :
  cache_reachable normalize c ->
  (getNormalizedString normalize c text).1 = normalize text.
Proof. intros Hc. apply getNormalizedString_sound, cache_reachable_sound, Hc. Qed.

(** The cache after normalizing "i" + U+0301, then a lookup that hits it. *)
Lemma getNormalizedString_is_normalize_witness :
  cache_reachable nfc (getNormalizedString nfc ∅ [0x69; 0x301]).2 /\
  (getNormalizedString nfc (getNormalizedString nfc ∅ [0x69; 0x301]).2 [0x69; 0x301]).1
  = nfc [0x69; 0x301].
Proof.
  split.
  - apply cache_after_call, cache_initial.
  - apply getNormalizedString_is_normalize, cache_after_call, cache_initial.
Defined.

(** ** C10: slicing everything gives the text back *)

Lemma concat_for_of_bounded n (s : list Z) : (length s <= n)%nat -> concat (for_of s) = s.
Proof.
  revert s. induction n as [|n IH]; intros s Hs.
  - destruct s; [reflexivity | simpl in Hs; lia].
  - destruct s as [|u [|l r]]; [reflexivity | reflexivity |].
    simpl in Hs.
    change (for_of (u :: l :: r))
      with (if is_high u && is_low l then [u; l] :: for_of r else [u] :: for_of (l :: r)).
    destruct (is_high u && is_low l); cbn [concat app].
    + rewrite (IH r) by lia. reflexivity.
    + rewrite (IH (l :: r)) by (simpl; lia). reflexivity.
Qed.

Lemma concat_for_of (s : list Z) : concat (for_of s) = s.
Proof. apply (concat_for_of_bounded (length s)). lia. Qed.

Lemma scan_bounds_bounded re n (t : list Z) pos i e :
  (length t <= n)%nat -> scan re t pos = Some (i, e) ->
  (pos <= i /\ i <= e /\ e <= pos + length t)%nat.
Proof.
  revert t pos. induction n as [|n IH]; intros t pos Ht Hs.
  - destruct t; [|simpl in Ht; lia]. simpl in Hs.
    destruct (re []) as [rest|]; [|discriminate]. injection Hs as <- <-. simpl. lia.
  - destruct t as [|u r0]; simpl in Hs; destruct (re _) as [rest|].
    + injection Hs as <- <-. lia.
    + discriminate.
    + injection Hs as <- <-. simpl. destruct (length rest); lia.
    + destruct r0 as [|l r].
      * apply IH in Hs; simpl in *; lia.
      * simpl in Ht. destruct (is_high u && is_low l).
        -- apply IH in Hs; simpl in *; lia.
        -- apply IH in Hs; simpl in *; lia.
Qed.

Lemma exec_bounds re (s : list Z) li i e li' :
  exec re s li = (Some (i, e), li') -> (li <= i /\ i <= e /\ e <= length s /\ li' = e)%nat.
Proof.
  unfold exec. destruct (length s <? li)%nat eqn:Hlt; [discriminate|].
  apply Nat.ltb_ge in Hlt.
  destruct (scan re (drop li s) li) as [[i' e']|] eqn:Hs; [|discriminate].
  intros H. injection H as <- <- <-.
  apply (scan_bounds_bounded re (length (drop li s))) in Hs; [|lia].
  rewrite length_drop in Hs. lia.
Qed.

Lemma exec_loop_chain re fuel (s : list Z) li : match_chain li (exec_loop re fuel s li) (length s).
Proof.
  revert li. induction fuel as [|fuel IH]; intros li; simpl; [exact I|].
  destruct (exec re s li) as [[[i e]|] li'] eqn:E; [|exact I].
  apply exec_bounds in E. simpl. split; [lia|]. destruct E as (_ & _ & _ & ->). apply IH.
Qed.

Lemma segment_fold_concat (s : list Z) ms : forall segs li,
  match_chain li ms (length s) -> (li <= length s)%nat -> concat segs = take li s ->
  concat (fold_left (segment_step s) ms (segs, li)).1 = take (fold_left (segment_step s) ms (segs, li)).2 s
  /\ ((fold_left (segment_step s) ms (segs, li)).2 <= length s)%nat.
Proof.
  induction ms as [|[i e] ms IH]; intros segs li Hc Hli Hsegs; [simpl; auto|].
  simpl in Hc. destruct Hc as [Hb Hc]. simpl. apply IH; [exact Hc | lia |].
  rewrite !concat_app, Hsegs. simpl. rewrite app_nil_r. unfold str_slice.
  destruct (li <? i)%nat eqn:Hlt.
  - rewrite concat_for_of, app_assoc, take_take_drop.
    replace (li + (i - li))%nat with i by lia.
    rewrite take_take_drop. f_equal. lia.
  - apply Nat.ltb_ge in Hlt. simpl. assert (li = i) as -> by lia. rewrite take_take_drop. f_equal. lia.
Qed.

Lemma visual_segments_concat (s : list Z) : concat (visual_segments s) = s.
Proof.
  unfold visual_segments.
  destruct (segment_fold_concat s (all_matches SIMPLE_EMOJI_REGEX s) [] 0)
    as [Hcat Hle]; [apply exec_loop_chain | lia | reflexivity |].
  destruct (fold_left (segment_step s) (all_matches SIMPLE_EMOJI_REGEX s) ([], 0%nat))
    as [segs li] eqn:E.
  simpl in Hcat, Hle. destruct (li <? length s)%nat eqn:Hlt.
  - rewrite concat_app, Hcat, concat_for_of. apply take_drop.
  - apply Nat.ltb_ge in Hlt. rewrite Hcat. apply take_ge. lia.
Qed.

(** C10: [visualSliceHelper(text, 0)] returns [text]. *)
Theorem visualSliceHelper_whole text : visualSliceHelper text 0 None = text.
Proof.
  destruct text as [|u r]; [reflexivity|].
  unfold visualSliceHelper. cbv iota beta zeta.
  pose proof (visual_segments_concat (u :: r)) as Hcat.
  remember (visual_segments (u :: r)) as segs eqn:Hsegs. clear Hsegs.
  assert (Hne : (0 < length segs)%nat) by (destruct segs; [discriminate Hcat | simpl; lia]).
  assert ((Z.of_nat (length segs) <=? 0) = false) as -> by (apply Z.leb_gt; lia).
  replace (Z.max 0 (Z.min (if 0 <? 0 then Z.max 0 (Z.of_nat (length segs) + 0) else 0)
                          (Z.of_nat (length segs)))) with 0 by (simpl; lia).
  replace (Z.max 0 (Z.min (Z.of_nat (length segs)) (Z.of_nat (length segs))))
    with (Z.of_nat (length segs)) by lia.
  assert ((Z.of_nat (length segs) <=? 0) = false) as -> by (apply Z.leb_gt; lia).
  rewrite Z.sub_0_r, Nat2Z.id, drop_0, take_ge by lia. exact Hcat.
Qed.

(** ** C7: the slice position grows with the target width *)

Lemma from_end_nonpos uw te t total k rli acc sp : from_end uw te t total k rli acc sp <= 0.
Proof.
  revert rli acc sp. induction k as [|i IH]; intros rli acc sp; simpl; [lia|].
  destruct (uw i rli) as [w rli']. destruct (Qle_bool t (acc + w)); [lia | apply IH].
Qed.

(** Stopping at unit [i] drops at least one more unit than has been passed;
    running out drops all [totalLength] units. *)
Lemma from_end_bounds uw te t total k rli acc sp :
  (forall i, te i <= i)%nat -> (sp + k = total)%nat ->
  (0 < k)%nat -> Z.of_nat (S sp) <= - from_end uw te t total k rli acc sp.
Proof.
  intros Hte. revert rli acc sp. induction k as [|i IH]; intros rli acc sp Hk Hpos; [lia|].
  simpl. destruct (uw i rli) as [w rli']. destruct (Qle_bool t (acc + w)); [lia|].
  destruct i as [|i].
  - simpl. lia.
  - specialize (IH rli' (acc + w)%Q (S sp)). lia.
Qed.

Lemma from_end_monotone uw te t1 t2 total k rli acc sp :
  (forall i, te i <= 1 /\ te i <= i)%nat -> (t1 <= t2)%Q -> (sp + k = total)%nat ->
  - from_end uw te t1 total k rli acc sp <= - from_end uw te t2 total k rli acc sp.
Proof.
  intros Hte Ht. revert rli acc sp. induction k as [|i IH]; intros rli acc sp Hk; simpl; [lia|].
  destruct (uw i rli) as [w rli'].
  destruct (Qle_bool t2 (acc + w)) eqn:E2.
  - assert (Qle_bool t1 (acc + w) = true) as ->.
    { apply Qle_bool_iff. apply Qle_bool_iff in E2. eapply Qle_trans; eassumption. }
    lia.
  - destruct (Qle_bool t1 (acc + w)).
    + destruct i as [|i].
      * simpl. specialize (Hte 0%nat). lia.
      * pose proof (from_end_bounds uw te t2 total (S i) rli' (acc + w)%Q (S sp)
                      (fun j => proj2 (Hte j)) ltac:(lia) ltac:(lia)) as Hb.
        specialize (Hte (S i)). lia.
    + apply IH. lia.
Qed.

Lemma mono_trailing_extra_le normalized ep i :
  (mono_trailing_extra normalized ep i <= 1 /\ mono_trailing_extra normalized ep i <= i)%nat.
Proof.
  unfold mono_trailing_extra. destruct (0 <? i)%nat eqn:Hi; simpl; [|lia].
  apply Nat.ltb_lt in Hi. destruct (negb _); [|lia].
  destruct (_ && _); lia.
Qed.

Lemma prop_trailing_extra_le normalized ep i :
  (prop_trailing_extra normalized ep i <= 1 /\ prop_trailing_extra normalized ep i <= i)%nat.
Proof.
  unfold prop_trailing_extra. destruct (0 <? i)%nat eqn:Hi; [|simpl; lia].
  apply Nat.ltb_lt in Hi. destruct (has_pos ep (i - 1)); cbn [negb andb]; [lia|].
  destruct (prop_prev_loop (S (length normalized)) normalized (i - 1) 0 0 0 0) as [[a b] c].
  destruct (walk_to (S (length normalized)) (length normalized) (i - 1) a b c) as [[d e] f].
  case_bool_decide; lia.
Qed.

(** C7: for a fixed text, unit width, mode and override sets, a larger
    [targetWidthPx] never makes [calculateSlicePositionHelper] drop fewer
    units: the magnitude of its result is non-decreasing in the target. *)
Theorem calculateSlicePositionHelper_monotone normalize text charWidth t1 t2 isMonospaced
    customShort customLong :
  (t1 <= t2)%Q ->
  Z.abs (calculateSlicePositionHelper normalize text charWidth t1 isMonospaced customShort customLong)
  <= Z.abs (calculateSlicePositionHelper normalize text charWidth t2 isMonospaced customShort customLong).
Proof.
  intros Ht. unfold calculateSlicePositionHelper.
  destruct (match text with [] => true | _ => false end) eqn:Htext; simpl; [lia|].
  destruct (Qle_bool t1 0) eqn:E1; [lia|].
  assert (Qle_bool t2 0 = false) as ->.
  { destruct (Qle_bool t2 0) eqn:E2; [|reflexivity].
    apply Qle_bool_iff in E2. assert (Qle_bool t1 0 = true) as E; [|congruence].
    apply Qle_bool_iff. eapply Qle_trans; eassumption. }
  destruct isMonospaced.
  - set (f := fun t => from_end (mono_unit_width charWidth (fst (emoji_positions (normalize text))))
                   (mono_trailing_extra (normalize text) (fst (emoji_positions (normalize text))))
                   t (fst (emoji_unit_count (normalize text))) (fst (emoji_unit_count (normalize text)))
                   0 0 0).
    change (Z.abs (f t1) <= Z.abs (f t2)).
    pose proof (from_end_nonpos (mono_unit_width charWidth (fst (emoji_positions (normalize text))))
                  (mono_trailing_extra (normalize text) (fst (emoji_positions (normalize text))))
                  t1 (fst (emoji_unit_count (normalize text))) (fst (emoji_unit_count (normalize text)))
                  0 0 0).
    pose proof (from_end_nonpos (mono_unit_width charWidth (fst (emoji_positions (normalize text))))
                  (mono_trailing_extra (normalize text) (fst (emoji_positions (normalize text))))
                  t2 (fst (emoji_unit_count (normalize text))) (fst (emoji_unit_count (normalize text)))
                  0 0 0).
    pose proof (from_end_monotone (mono_unit_width charWidth (fst (emoji_positions (normalize text))))
                  (mono_trailing_extra (normalize text) (fst (emoji_positions (normalize text))))
                  t1 t2 (fst (emoji_unit_count (normalize text)))
                  (fst (emoji_unit_count (normalize text))) 0 0 0
                  (mono_trailing_extra_le _ _) Ht eq_refl).
    unfold f. lia.
  - destruct (emoji_positions (normalize text)) as [ep total].
    pose proof (from_end_nonpos
                  (prop_unit_width charWidth customShort customLong (normalize text) ep)
                  (prop_trailing_extra (normalize text) ep) t1 total total 0 0 0).
    pose proof (from_end_nonpos
                  (prop_unit_width charWidth customShort customLong (normalize text) ep)
                  (prop_trailing_extra (normalize text) ep) t2 total total 0 0 0).
    pose proof (from_end_monotone
                  (prop_unit_width charWidth customShort customLong (normalize text) ep)
                  (prop_trailing_extra (normalize text) ep) t1 t2 total total 0 0 0
                  (prop_trailing_extra_le _ _) Ht eq_refl).
    lia.
Qed.

(** "x yz" in monospaced mode with unit width 1: targets 1 and 2. *)
Lemma calculateSlicePositionHelper_monotone_witness :
  (1 <= 2)%Q /\
  Z.abs (calculateSlicePositionHelper nfc text_x_yz 1 1 true [] [])
  <= Z.abs (calculateSlicePositionHelper nfc text_x_yz 1 2 true [] []).
Proof.
  split; [apply Qle_bool_iff; reflexivity|].
  apply calculateSlicePositionHelper_monotone. apply Qle_bool_iff; reflexivity.
Defined.

(** ** C8: the zero-width fallback *)

Lemma unit_count_fold_ge ms acc :
  (acc.1.1 <= (fold_left unit_count_step ms acc).1.1)%nat.
Proof.
  revert acc. induction ms as [|[i l'] ms IH]; intros [[v e] l]; simpl; [lia|].
  specialize (IH (v + (i - l) + 1, S e, l')%nat). simpl in IH. lia.
Qed.

(** A visual length of 0 only comes from an empty normalized string. *)
Lemma emoji_unit_count_zero n : fst (emoji_unit_count n) = 0%nat -> n = [].
Proof.
  unfold emoji_unit_count. destruct (all_matches EMOJI_REGEX n) as [|[i l'] ms].
  - simpl. destruct (0 <? length n)%nat eqn:H; intros Hz.
    + apply Nat.ltb_lt in H. lia.
    + apply Nat.ltb_ge in H. destruct n; [reflexivity | simpl in H; lia].
  - cbn [fold_left]. pose proof (unit_count_fold_ge ms (unit_count_step (0, 0, 0)%nat (i, l'))) as H.
    destruct (fold_left unit_count_step ms (unit_count_step (0, 0, 0)%nat (i, l'))) as [[v e] l].
    simpl in H |- *. destruct (l <? length n)%nat; lia.
Qed.

(** On a last row of visual length 0 the slice position is 0, whatever the
    unit width and the target. *)
Lemma calculateSlicePositionHelper_zero_length normalize s charWidth targetWidth isMonospaced
    customShort customLong :
  visualLength (getVisualLengthHelper normalize s customShort customLong) = 0%nat ->
  calculateSlicePositionHelper normalize s charWidth targetWidth isMonospaced customShort customLong = 0.
Proof.
  destruct s as [|u r]; [reflexivity|]. unfold getVisualLengthHelper.
  destruct (emoji_unit_count (normalize (u :: r))) as [vl ec] eqn:E. simpl. intros ->.
  assert (Hn : normalize (u :: r) = []) by (apply emoji_unit_count_zero; rewrite E; reflexivity).
  unfold calculateSlicePositionHelper. rewrite Hn.
  destruct (_ || _); [reflexivity|]. destruct isMonospaced; reflexivity.
Qed.

(** C8: when the last visible line has visual length 0, the truncation
    computes exactly what it computes with the per-unit width replaced by 1
    everywhere ([unitWidthPx = avgCharWidth || 1]): the affordance width uses
    [avgCharWidth || 1] itself, and the slice position, which the code
    computes from [avgCharWidth], is 0 for any width on such a line. *)
Theorem calculateTruncatedText_zero_length_fallback normalize children lines containerWidth
    numberOfLines readMoreText compensationSpaceAndroid isMonospaced shorts longs lastRow :
  js_index lines (numberOfLines - 1) = Some lastRow ->
  visualLength (getVisualLengthHelper normalize (strip_newline (line_text lastRow)) shorts longs) = 0%nat ->
  calculateTruncatedText normalize children lines containerWidth numberOfLines readMoreText
    compensationSpaceAndroid isMonospaced shorts longs
  = spec_truncation_unit_fallback normalize children lines containerWidth numberOfLines readMoreText
      compensationSpaceAndroid isMonospaced shorts longs.
Proof.
  intros Hrow Hvl. unfold calculateTruncatedText, spec_truncation_unit_fallback.
  destruct (_ || _); [reflexivity|].
  destruct (numberOfLines <? Z.of_nat (length lines)) eqn:Hlt; [|reflexivity].
  assert ((numberOfLines <=? Z.of_nat (length lines)) = true) as ->.
  { apply Z.leb_le. apply Z.ltb_lt in Hlt. lia. }
  rewrite Hrow. cbv zeta.
  rewrite !(calculateSlicePositionHelper_zero_length normalize _ _ _ _ _ _ Hvl).
  reflexivity.
Qed.

Lemma calculateTruncatedText_zero_length_fallback_witness :
  js_index lines_blank_second (2 - 1) = Some {| line_text := [NEWLINE]; line_width := 0 |} /\
  visualLength (getVisualLengthHelper nfc (strip_newline [NEWLINE]) [] []) = 0%nat /\
  calculateTruncatedText nfc [0x61; NEWLINE; NEWLINE; 0x62] lines_blank_second 10 2 None 1 true [] []
  = spec_truncation_unit_fallback nfc [0x61; NEWLINE; NEWLINE; 0x62] lines_blank_second 10 2 None 1 true [] [].
Proof.
  split; [reflexivity|]. split; [reflexivity|].
  apply (calculateTruncatedText_zero_length_fallback nfc _ _ _ _ _ _ _ _ _
           {| line_text := [NEWLINE]; line_width := 0 |}); reflexivity.
Defined.

(** * Further properties of helper.ts *)

(** ** Emoji units *)

Lemma position_unit_fold ms P vp ec li :
  (fold_left position_step ms (P, vp, li)).1.2 = (fold_left unit_count_step ms (vp, ec, li)).1.1
  /\ (fold_left position_step ms (P, vp, li)).2 = (fold_left unit_count_step ms (vp, ec, li)).2.
Proof.
  revert P vp ec li. induction ms as [|[i l'] ms IH]; intros P vp ec li; simpl; [auto|].
  specialize (IH (P ++ [(vp + (i - li))%nat]) (S (vp + (i - li))) (S ec) l').
  replace (vp + (i - li) + 1)%nat with (S (vp + (i - li))) by lia. exact IH.
Qed.

(** The proportional loops of [calculateSlicePositionHelper] and the visual
    length of [getVisualLengthHelper] count the same units. *)
Lemma emoji_positions_total n : (emoji_positions n).2 = fst (emoji_unit_count n).
Proof.
  unfold emoji_positions, emoji_unit_count.
  destruct (position_unit_fold (all_matches EMOJI_REGEX n) [] 0 0 0) as [H1 H2].
  destruct (fold_left position_step (all_matches EMOJI_REGEX n) ([], 0%nat, 0%nat)) as [[P vp] li].
  destruct (fold_left unit_count_step (all_matches EMOJI_REGEX n) (0%nat, 0%nat, 0%nat)) as [[vl ec] li'].
  simpl in *. subst. destruct (li' <? length n)%nat eqn:E; simpl; [reflexivity|].
  apply Nat.ltb_ge in E. lia.
Qed.

Lemma unit_count_step_eq vl ec li i l' :
  unit_count_step (vl, ec, li) (i, l') = ((vl + (i - li) + 1)%nat, S ec, l').
Proof. reflexivity. Qed.

(** ** The slice position *)

Lemma from_end_le_total uw te t total k rli acc sp :
  (forall i, te i <= i)%nat -> (sp + k = total)%nat ->
  - from_end uw te t total k rli acc sp <= Z.of_nat total.
Proof.
  intros Hte. revert rli acc sp. induction k as [|i IH]; intros rli acc sp Hk; simpl; [lia|].
  destruct (uw i rli) as [w rli']. destruct (Qle_bool t (acc + w)).
  - specialize (Hte i). lia.
  - apply IH. lia.
Qed.

Lemma visualLength_getVisualLengthHelper normalize text cs cl :
  visualLength (getVisualLengthHelper normalize text cs cl)
  = match text with [] => 0%nat | _ => fst (emoji_unit_count (normalize text)) end.
Proof.
  destruct text as [|u r]; [reflexivity|]. unfold getVisualLengthHelper.
  destruct (emoji_unit_count (normalize (u :: r))). reflexivity.
Qed.

(** The slice position as [from_end] over the visual length of the text. *)
Lemma calculateSlicePositionHelper_from_end normalize text cw t mono cs cl :
  calculateSlicePositionHelper normalize text cw t mono cs cl = 0
  \/ (text <> [] /\ Qle_bool t 0 = false /\
      exists uw te, (forall i, te i <= 1 /\ te i <= i)%nat /\
        calculateSlicePositionHelper normalize text cw t mono cs cl
        = from_end uw te t (visualLength (getVisualLengthHelper normalize text cs cl))
            (visualLength (getVisualLengthHelper normalize text cs cl)) 0 0 0).
Proof.
  unfold calculateSlicePositionHelper. rewrite visualLength_getVisualLengthHelper.
  destruct text as [|u r]; [left; reflexivity|]. cbn [orb].
  destruct (Qle_bool t 0) eqn:Et; [left; reflexivity|]. right.
  split; [discriminate|]. split; [reflexivity|].
  destruct mono.
  - eexists _, _. split; [apply mono_trailing_extra_le | reflexivity].
  - pose proof (emoji_positions_total (normalize (u :: r))) as Ht.
    destruct (emoji_positions (normalize (u :: r))) as [ep total]. cbn [snd] in Ht. subst total.
    eexists _, _. split; [apply prop_trailing_extra_le | reflexivity].
Qed.

(** X: [calculateSlicePositionHelper] returns a value between minus the
    visual length of the text (as [getVisualLengthHelper] counts it) and 0:
    it never asks to drop more visual units than the text has. *)
Theorem calculateSlicePositionHelper_range normalize text charWidth targetWidth isMonospaced
    customShort customLong :
  - Z.of_nat (visualLength (getVisualLengthHelper normalize text customShort customLong))
  <= calculateSlicePositionHelper normalize text charWidth targetWidth isMonospaced
       customShort customLong <= 0.
Proof.
  destruct (calculateSlicePositionHelper_from_end normalize text charWidth targetWidth
              isMonospaced customShort customLong) as [-> | (_ & _ & uw & te & Hte & ->)]; [lia|].
  split.
  - pose proof (from_end_le_total uw te targetWidth
                  (visualLength (getVisualLengthHelper normalize text customShort customLong))
                  (visualLength (getVisualLengthHelper normalize text customShort customLong))
                  0 0 0 (fun i => proj2 (Hte i)) eq_refl). lia.
  - apply from_end_nonpos.
Qed.

(** X: for a positive target width and a text of nonzero visual length,
    [calculateSlicePositionHelper] asks to drop at least one unit. *)
Theorem calculateSlicePositionHelper_drops_one normalize text charWidth targetWidth isMonospaced
    customShort customLong :
  (0 < targetWidth)%Q ->
  (0 < visualLength (getVisualLengthHelper normalize text customShort customLong))%nat ->
  calculateSlicePositionHelper normalize text charWidth targetWidth isMonospaced
    customShort customLong <= -1.
Proof.
  intros Ht Hvl.
  destruct (calculateSlicePositionHelper_from_end normalize text charWidth targetWidth
              isMonospaced customShort customLong) as [H0 | (Hne & Hle & uw & te & Hte & ->)].
  - exfalso. revert H0. unfold calculateSlicePositionHelper.
    rewrite visualLength_getVisualLengthHelper in Hvl.
    destruct text as [|u r]; [simpl in Hvl; lia|]. cbn [orb].
    assert (Qle_bool targetWidth 0 = false) as ->.
    { destruct (Qle_bool targetWidth 0) eqn:E; [|reflexivity].
      apply Qle_bool_iff in E. exfalso. apply (Qlt_not_le _ _ Ht E). }
    destruct isMonospaced.
    + pose proof (from_end_bounds (mono_unit_width charWidth (fst (emoji_positions (normalize (u :: r)))))
                    (mono_trailing_extra (normalize (u :: r)) (fst (emoji_positions (normalize (u :: r)))))
                    targetWidth (fst (emoji_unit_count (normalize (u :: r))))
                    (fst (emoji_unit_count (normalize (u :: r)))) 0 0 0
                    (fun i => proj2 (mono_trailing_extra_le _ _ i)) eq_refl Hvl). lia.
    + pose proof (emoji_positions_total (normalize (u :: r))) as Ht'.
      destruct (emoji_positions (normalize (u :: r))) as [ep total]. cbn [snd] in Ht'. subst total.
      pose proof (from_end_bounds
                    (prop_unit_width charWidth customShort customLong (normalize (u :: r)) ep)
                    (prop_trailing_extra (normalize (u :: r)) ep)
                    targetWidth (fst (emoji_unit_count (normalize (u :: r))))
                    (fst (emoji_unit_count (normalize (u :: r)))) 0 0 0
                    (fun i => proj2 (prop_trailing_extra_le _ _ i)) eq_refl Hvl). lia.
  - pose proof (from_end_bounds uw te targetWidth
                  (visualLength (getVisualLengthHelper normalize text customShort customLong))
                  (visualLength (getVisualLengthHelper normalize text customShort customLong))
                  0 0 0 (fun i => proj2 (Hte i)) eq_refl Hvl). lia.
Qed.

Lemma calculateSlicePositionHelper_drops_one_witness :
  (0 < 2)%Q /\ (0 < visualLength (getVisualLengthHelper nfc text_x_yz [] []))%nat /\
  calculateSlicePositionHelper nfc text_x_yz 1 2 true [] [] <= -1.
Proof.
  split; [reflexivity|]. split; [vm_compute; lia|].
  apply calculateSlicePositionHelper_drops_one; [reflexivity | vm_compute; lia].
Defined.

(** ** The visual length *)

Lemma cp_at_length s c r : cp_at s = Some (c, r) -> (length r < length s)%nat.
Proof.
  unfold cp_at. destruct s as [|u s]; [discriminate|].
  destruct (is_high u); [destruct s as [|l s'] ; [|destruct (is_low l)]|];
    intros H; injection H as _ <-; simpl; lia.
Qed.

Lemma pict_length s r : pict s = Some r -> (length r < length s)%nat.
Proof.
  unfold pict. destruct (cp_at s) as [[c r']|] eqn:E; [|discriminate].
  destruct (is_ext_pict c); [|discriminate]. intros H; injection H as <-.
  eapply cp_at_length; eassumption.
Qed.

Lemma unit_is_length x s r : unit_is x s = Some r -> (length r < length s)%nat.
Proof.
  destruct s as [|u s]; simpl; [discriminate|].
  destruct (u =? x); [|discriminate]. intros H; injection H as <-. lia.
Qed.

Lemma opt_vs16_length s : (length (opt_vs16 s) <= length s)%nat.
Proof.
  unfold opt_vs16. destruct (unit_is VS16 s) eqn:E; [|lia].
  apply unit_is_length in E. lia.
Qed.

Lemma zwj_star_length f s : (length (zwj_star f s) <= length s)%nat.
Proof.
  revert s. induction f as [|f IH]; intros s; simpl; [lia|].
  destruct (unit_is ZWJ s) as [r|] eqn:E1; [|lia].
  destruct (pict r) as [r'|] eqn:E2; [|lia].
  apply unit_is_length in E1. apply pict_length in E2.
  pose proof (IH (opt_vs16 r')). pose proof (opt_vs16_length r'). lia.
Qed.

Lemma EMOJI_REGEX_length s r : EMOJI_REGEX s = Some r -> (length r < length s)%nat.
Proof.
  unfold EMOJI_REGEX, emoji_sequence.
  destruct (pict s) as [r'|] eqn:E.
  - intros H; injection H as <-. apply pict_length in E.
    pose proof (zwj_star_length (length s) (opt_vs16 r')). pose proof (opt_vs16_length r'). lia.
  - unfold flag_pair. destruct (cp_at s) as [[c1 r1]|] eqn:E1; [|discriminate].
    destruct (is_regional_indicator c1); [|discriminate].
    destruct (cp_at r1) as [[c2 r2]|] eqn:E2; [|discriminate].
    destruct (is_regional_indicator c2); [|discriminate].
    intros H; injection H as <-. apply cp_at_length in E1, E2. lia.
Qed.

Section Strict.
Variable re : list Z -> option (list Z).
Hypothesis re_consumes : forall s r, re s = Some r -> (length r < length s)%nat.

Lemma scan_strict_bounded n (t : list Z) pos i e :
  (length t <= n)%nat -> scan re t pos = Some (i, e) -> (i < e)%nat.
Proof.
  revert t pos. induction n as [|n IH]; intros t pos Ht Hs.
  - destruct t; [|simpl in Ht; lia]. simpl in Hs.
    destruct (re []) as [rest|] eqn:E; [|discriminate]. apply re_consumes in E. simpl in E. lia.
  - destruct t as [|u r0]; simpl in Hs; destruct (re _) as [rest|] eqn:E.
    + apply re_consumes in E. simpl in E. lia.
    + discriminate.
    + apply re_consumes in E. injection Hs as <- <-. simpl in E |- *. lia.
    + destruct r0 as [|l r].
      * eapply IH; [|exact Hs]. simpl in *; lia.
      * simpl in Ht. destruct (is_high u && is_low l).
        -- eapply IH; [|exact Hs]. simpl in *; lia.
        -- eapply IH; [|exact Hs]. simpl in *; lia.
Qed.

Lemma exec_loop_strict fuel (s : list Z) li :
  Forall (fun m : nat * nat => (m.1 < m.2)%nat) (exec_loop re fuel s li).
Proof.
  revert li. induction fuel as [|fuel IH]; intros li; simpl; [constructor|].
  destruct (exec re s li) as [[[i e]|] li'] eqn:E; [|constructor].
  constructor; [|apply IH]. simpl. unfold exec in E.
  destruct (length s <? li)%nat; [discriminate|].
  destruct (scan re (drop li s) li) as [[i' e']|] eqn:Hs; [|discriminate].
  injection E as <- <- _. eapply scan_strict_bounded; [|exact Hs]. reflexivity.
Qed.
End Strict.

Lemma unit_count_fold_bounds ms len vl ec li :
  match_chain li ms len -> Forall (fun m : nat * nat => (m.1 < m.2)%nat) ms ->
  (ec <= vl <= li)%nat -> (li <= len)%nat ->
  ((fold_left unit_count_step ms (vl, ec, li)).1.2 <= (fold_left unit_count_step ms (vl, ec, li)).1.1
   <= (fold_left unit_count_step ms (vl, ec, li)).2 /\ (fold_left unit_count_step ms (vl, ec, li)).2 <= len)%nat.
Proof.
  revert vl ec li. induction ms as [|[i e] ms IH]; intros vl ec li Hc Hs Hv Hl; [simpl; lia|].
  cbn [fold_left]. rewrite unit_count_step_eq.
  simpl in Hc. destruct Hc as [Hb Hc]. inversion Hs as [|? ? Hie Hs']; subst. simpl in Hie.
  apply IH; [exact Hc | exact Hs' | lia | lia].
Qed.

Lemma visual_length_bounds normalize text cs cl :
  let p := getVisualLengthHelper normalize text cs cl in
  (emojiCount p <= visualLength p <= length (match text with [] => [] | _ => normalize text end))%nat.
Proof.
  intros p. subst p. destruct text as [|u r]; [simpl; lia|].
  unfold getVisualLengthHelper, emoji_unit_count.
  set (n := normalize (u :: r)).
  pose proof (unit_count_fold_bounds (all_matches EMOJI_REGEX n) (length n) 0 0 0
                (exec_loop_chain EMOJI_REGEX _ n 0)
                (exec_loop_strict EMOJI_REGEX EMOJI_REGEX_length _ n 0)
                ltac:(lia) ltac:(lia)) as H.
  destruct (fold_left unit_count_step (all_matches EMOJI_REGEX n) (0%nat, 0%nat, 0%nat))
    as [[vl ec] li].
  simpl in H |- *. destruct (li <? length n)%nat; simpl; lia.
Qed.

(** X: for every text, [getVisualLengthHelper] reports at most as many
    emoji as visual units, and at most as many visual units as the
    normalized text has UTF-16 code units (every emoji spans at least one). *)
Theorem getVisualLengthHelper_bounds normalize text customShort customLong :
  let p := getVisualLengthHelper normalize text customShort customLong in
  (emojiCount p <= visualLength p
   <= length (match text with [] => [] | _ => normalize text end))%nat.
Proof. apply visual_length_bounds. Qed.

(** ** The normalization cache *)

Lemma getNormalizedString_size normalize c text :
  (size c <= 1001)%nat -> (size (getNormalizedString normalize c text).2 <= 1001)%nat.
Proof.
  intros Hc. unfold getNormalizedString.
  destruct (c !! text) as [v|] eqn:E; [exact Hc|]. cbn [snd].
  destruct (1000 <? size c)%nat eqn:Hs.
  - rewrite map_size_insert_None by apply lookup_empty. rewrite map_size_empty. lia.
  - rewrite map_size_insert_None by exact E. apply Nat.ltb_ge in Hs. lia.
Qed.

(** X: every cache state the program can reach holds at most 1001 entries:
    a miss on a cache of more than 1000 entries clears it first. *)
Theorem normalizeCache_size_bound normalize c :
  cache_reachable normalize c -> (size c <= 1001)%nat.
Proof.
  induction 1 as [|c text _ IH].
  - rewrite map_size_empty. lia.
  - apply getNormalizedString_size, IH.
Qed.

Lemma normalizeCache_size_bound_witness :
  cache_reachable nfc (getNormalizedString nfc ∅ [0x69; 0x301]%Z).2 /\
  (size (getNormalizedString nfc ∅ [0x69; 0x301]%Z).2 <= 1001)%nat.
Proof.
  split; [apply cache_after_call, cache_initial|].
  apply (normalizeCache_size_bound nfc), cache_after_call, cache_initial.
Defined.

(** X: calling [getNormalizedString] again on the same text, right after a
    call, hits the cache: it returns the same string and leaves the cache
    as it was. *)
Theorem getNormalizedString_repeat normalize c text :
  getNormalizedString normalize (getNormalizedString normalize c text).2 text
  = getNormalizedString normalize c text.
Proof.
  unfold getNormalizedString.
  destruct (c !! text) as [v|] eqn:E; cbn [snd]; [rewrite E; reflexivity|].
  rewrite lookup_insert, decide_True by reflexivity. reflexivity.
Qed.

(** ** Slicing by visual units *)

Lemma visual_segments_nonempty u r : (0 < length (visual_segments (u :: r)))%nat.
Proof.
  pose proof (visual_segments_concat (u :: r)) as Hcat.
  destruct (visual_segments (u :: r)); [discriminate | simpl; lia].
Qed.

Lemma visualSliceHelper_prefix u r k :
  let segs := visual_segments (u :: r) in
  let L := Z.of_nat (length segs) in
  visualSliceHelper (u :: r) 0 (Some k)
  = concat (take (Z.to_nat (Z.max 0 (Z.min (if k <? 0 then Z.max 0 (L + k) else k) L))) segs).
Proof.
  intros segs L. unfold visualSliceHelper. fold segs. fold L. cbv beta iota zeta.
  pose proof (visual_segments_nonempty u r) as HL. fold segs in HL.
  assert ((L <=? 0) = false) as -> by (apply Z.leb_gt; unfold L; lia).
  rewrite (Z.ltb_irrefl 0). replace (Z.max 0 (Z.min 0 L)) with 0 by (unfold L; lia).
  set (e := Z.max 0 (Z.min (if k <? 0 then Z.max 0 (L + k) else k) L)).
  destruct (Z.leb_spec e 0) as [He|He].
  - replace (Z.to_nat e) with 0%nat by lia. reflexivity.
  - rewrite Z.sub_0_r, drop_0. reflexivity.
Qed.

Lemma visualSliceHelper_suffix u r k :
  let segs := visual_segments (u :: r) in
  let L := Z.of_nat (length segs) in
  visualSliceHelper (u :: r) k None
  = concat (drop (Z.to_nat (Z.max 0 (Z.min (if k <? 0 then Z.max 0 (L + k) else k) L))) segs).
Proof.
  intros segs L. unfold visualSliceHelper. fold segs. fold L. cbv beta iota zeta.
  pose proof (visual_segments_nonempty u r) as HL. fold segs in HL.
  replace (Z.max 0 (Z.min L L)) with L by (unfold L; lia).
  set (ns := Z.max 0 (Z.min (if k <? 0 then Z.max 0 (L + k) else k) L)).
  assert (Hns : 0 <= ns <= L) by (unfold ns; destruct (k <? 0); lia).
  destruct (Z.leb_spec L k) as [Hk|Hk].
  - replace (Z.to_nat ns) with (length segs).
    + rewrite drop_all. reflexivity.
    + unfold ns. destruct (Z.ltb_spec k 0); unfold L in *; lia.
  - destruct (Z.leb_spec L ns) as [Hn|Hn].
    + rewrite drop_ge; [reflexivity|]. unfold L in *. lia.
    + rewrite take_ge; [reflexivity|]. rewrite length_drop. unfold L in *. lia.
Qed.

(** X: cutting a text at any visual position [k] (negative counts from the
    end, as in [String.prototype.slice]) and joining the two pieces gives
    the text back: [visualSliceHelper(text, 0, k) + visualSliceHelper(text, k)
    = text]. *)
Theorem visualSliceHelper_split text k :
  visualSliceHelper text 0 (Some k) ++ visualSliceHelper text k None = text.
Proof.
  destruct text as [|u r]; [reflexivity|].
  rewrite visualSliceHelper_prefix, visualSliceHelper_suffix.
  rewrite <- concat_app, take_drop. apply visual_segments_concat.
Qed.

(** * Further properties of the [calculateTruncatedText] callback *)

(** With lines and a width, the callback either throws (exactly when the
    line limit is not positive) or resolves. *)
Lemma calculateTruncatedText_cases normalize children lines w n r comp mono cs cl :
  lines <> [] -> Qeq_bool w 0 = false ->
  (calculateTruncatedText normalize children lines w n r comp mono cs cl = Threw /\ n <= 0) \/
  (0 < n /\ exists b t, calculateTruncatedText normalize children lines w n r comp mono cs cl = Computed b t).
Proof.
  intros Hl Hw. unfold calculateTruncatedText.
  destruct lines as [|l0 ls]; [contradiction|]. cbn [length Nat.eqb orb]. rewrite Hw. cbn [orb].
  cbn [length]. destruct (n <? Z.of_nat (S (length ls))) eqn:Hn.
  - apply Z.ltb_lt in Hn. cbv zeta.
    destruct (js_index (l0 :: ls) (n - 1)) eqn:Hj.
    + right. unfold js_index in Hj. destruct (n - 1 <? 0) eqn:Hz; [discriminate|].
      apply Z.ltb_ge in Hz. split; [lia|]. exists true; eexists; reflexivity.
    + left. split; [reflexivity|]. unfold js_index in Hj.
      destruct (n - 1 <? 0) eqn:Hz; [apply Z.ltb_lt in Hz; lia|].
      apply Z.ltb_ge in Hz. apply lookup_ge_None in Hj. cbn [length] in Hj. lia.
  - right. apply Z.ltb_ge in Hn. split; [lia|]. exists false; eexists; reflexivity.
Qed.

(** [concat] of a prefix of the segments is a prefix of the whole. *)
Lemma concat_take_prefix (segs : list (list Z)) j :
  exists m, concat (take j segs) = take m (concat segs).
Proof.
  exists (length (concat (take j segs))).
  assert (H : concat segs = concat (take j segs) ++ concat (drop j segs))
    by (rewrite <- concat_app, take_drop; reflexivity).
  rewrite H, take_app_length. reflexivity.
Qed.

(** A slice from 0 is a prefix of the text. *)
Lemma visualSliceHelper_from_zero text e : exists m, visualSliceHelper text 0 e = take m text.
Proof.
  unfold visualSliceHelper. destruct text as [|u r]; [exists 0%nat; reflexivity|].
  destruct (Z.of_nat (length (visual_segments (u :: r))) <=? 0); [exists 0%nat; reflexivity|].
  cbv zeta. destruct (_ <=? _); [exists 0%nat; reflexivity|].
  rewrite Z.ltb_irrefl. replace (Z.to_nat (Z.max 0 (Z.min 0 _))) with 0%nat by lia.
  rewrite drop_0.
  match goal with |- exists m, concat (take ?j ?segs) = _ =>
    destruct (concat_take_prefix segs j) as [m Hm] end.
  exists m. rewrite Hm, visual_segments_concat. reflexivity.
Qed.

(** ** X: when the callback throws *)
(** With at least one measured line and a nonzero container width,
    [calculateTruncatedText] throws (the [TypeError] of
    [textLinesRef.current[numberOfLines - 1].width]) exactly when
    [numberOfLines <= 0]. *)
Theorem calculateTruncatedText_throws_iff normalize children lines w n r comp mono cs cl :
  lines <> [] -> Qeq_bool w 0 = false ->
  calculateTruncatedText normalize children lines w n r comp mono cs cl = Threw <-> n <= 0.
Proof.
  intros Hl Hw.
  destruct (calculateTruncatedText_cases normalize children lines w n r comp mono cs cl Hl Hw)
    as [[H1 H2] | [H1 [b [t H2]]]].
  - split; intros; [exact H2 | exact H1].
  - rewrite H2. split; intros H; [discriminate | lia].
Qed.

Lemma calculateTruncatedText_throws_iff_witness :
  demo_lines <> [] /\ Qeq_bool 100 0 = false /\
  (calculateTruncatedText nfc [] demo_lines 100 0 None 0 false [] [] = Threw <-> 0 <= 0).
Proof.
  split; [discriminate|]. split; [reflexivity|].
  apply (calculateTruncatedText_throws_iff nfc [] demo_lines 100 0 None 0 false [] []);
    [discriminate | reflexivity].
Defined.

(** ** X: the truncated text is a trimmed prefix of the visible lines *)
(** When [calculateTruncatedText] truncates, [0 < numberOfLines < lines.length]
    and the text it stores is the trimmed prefix of the concatenated first
    [numberOfLines] lines (one trailing newline removed): it never reorders,
    inserts or skips characters. *)
Theorem calculateTruncatedText_truncated_prefix normalize children lines w n r comp mono cs cl t :
  calculateTruncatedText normalize children lines w n r comp mono cs cl = Computed true t ->
  (0 < n < Z.of_nat (length lines)) /\
  exists m, t = trim (take m (strip_newline (concat (map line_text (take (Z.to_nat n) lines))))).
Proof.
  unfold calculateTruncatedText.
  destruct ((length lines =? 0)%nat || Qeq_bool w 0); [discriminate|].
  destruct (n <? Z.of_nat (length lines)) eqn:Hn; [|discriminate].
  apply Z.ltb_lt in Hn. cbv zeta.
  destruct (js_index lines (n - 1)) eqn:Hj; [|discriminate].
  intros H. injection H as <-.
  unfold js_index in Hj. destruct (n - 1 <? 0) eqn:Hz; [discriminate|]. apply Z.ltb_ge in Hz.
  split; [lia|].
  match goal with |- exists m, trim (visualSliceHelper ?x 0 ?e) = _ =>
    destruct (visualSliceHelper_from_zero x e) as [m Hm] end.
  exists m. rewrite Hm. reflexivity.
Qed.

Lemma calculateTruncatedText_truncated_prefix_witness :
  (0 < 2 < Z.of_nat (length demo_lines)) /\
  exists m, [0x6F; 0x6E; 0x65; SPACE; 0x74; 0x77; 0x6F] =
    trim (take m (strip_newline (concat (map line_text (take (Z.to_nat 2) demo_lines))))).
Proof.
  apply (calculateTruncatedText_truncated_prefix nfc (concat (map line_text demo_lines))
           demo_lines 100 2 None 0 false [] []).
  vm_compute. reflexivity.
Defined.

(** * Properties of the component's handlers and render *)

Lemma calculateTruncatedText_no_lines normalize c w n r comp mono cs cl :
  calculateTruncatedText normalize c [] w n r comp mono cs cl = Skipped.
Proof. reflexivity. Qed.

Lemma calculateTruncatedText_zero_width normalize c lines n r comp mono cs cl :
  calculateTruncatedText normalize c lines 0 n r comp mono cs cl = Skipped.
Proof. unfold calculateTruncatedText. rewrite orb_true_r. reflexivity. Qed.

(** A run that returns early leaves the state unchanged. *)
Lemma calculateTruncatedText_run_skipped normalize P st :
  calculateTruncatedText normalize (children P) (textLinesRef st) (containerWidthRef st)
    (numberOfLines P) (readMoreText P) (compensationSpaceAndroid P) (isMonospaced P)
    (shortWidthCharacters P) (longWidthCharacters P) = Skipped ->
  calculateTruncatedText_run normalize P st = (st, false).
Proof. intros H. unfold calculateTruncatedText_run. rewrite H. reflexivity. Qed.

(** The two orders of the first layout events reach the same run. *)
Lemma mount_container_then_text normalize Ph P w l :
  layout_events normalize Ph (mount P) [ContainerLayout w; TextLayout l] =
  fst (calculateTruncatedText_run normalize Ph
         (with_textLines (with_containerWidth (mount P) (match w with Some x => x | None => 0%Q end))
            (match l with Some x => x | None => [] end))).
Proof.
  cbn [layout_events]. unfold onContainerLayout. cbn [isCalculationCompleteRef mount layout_effect initial_state].
  rewrite (calculateTruncatedText_run_skipped normalize Ph
             (with_containerWidth (mount P) (match w with Some x => x | None => 0%Q end)))
    by apply calculateTruncatedText_no_lines.
  reflexivity.
Qed.

Lemma mount_text_then_container normalize Ph P w l :
  layout_events normalize Ph (mount P) [TextLayout l; ContainerLayout w] =
  fst (calculateTruncatedText_run normalize Ph
         (with_textLines (with_containerWidth (mount P) (match w with Some x => x | None => 0%Q end))
            (match l with Some x => x | None => [] end))).
Proof.
  cbn [layout_events]. unfold onTextLayoutHandler. cbn [isCalculationCompleteRef mount layout_effect initial_state].
  rewrite (calculateTruncatedText_run_skipped normalize Ph
             (with_textLines (mount P) (match l with Some x => x | None => [] end)))
    by apply calculateTruncatedText_zero_width.
  reflexivity.
Qed.

Lemma bool_decide_refl {A} `{EqDecision A} (x : A) : bool_decide (x = x) = true.
Proof. apply bool_decide_eq_true_2. reflexivity. Qed.

(** ** X: the first two layout events commute *)
(** After mounting, the state reached by the container layout event and the
    text layout event does not depend on their order: the first of the two
    always returns early, the second runs the calculation. *)
Theorem mount_layout_order normalize P w l :
  layout_events normalize P (mount P) [ContainerLayout w; TextLayout l] =
  layout_events normalize P (mount P) [TextLayout l; ContainerLayout w].
Proof. rewrite mount_container_then_text, mount_text_then_container. reflexivity. Qed.

(** ** X: a completed calculation ignores layout events *)
(** Once [isCalculationCompleteRef] is set, any sequence of text and
    container layout events leaves the whole state unchanged: nothing is
    recomputed until the layout effect's cleanup clears the flag. *)
Theorem layout_events_complete_inert normalize P st evs :
  isCalculationCompleteRef st = true -> layout_events normalize P st evs = st.
Proof.
  intros H. induction evs as [|[l|w] evs IH]; cbn [layout_events]; [reflexivity| |].
  - unfold onTextLayoutHandler. rewrite H. exact IH.
  - unfold onContainerLayout. rewrite H. exact IH.
Qed.

Lemma layout_events_complete_inert_witness :
  let st := layout_events nfc (demo_props 2) (mount (demo_props 2))
              [ContainerLayout (Some 100%Q); TextLayout (Some demo_lines)] in
  isCalculationCompleteRef st = true /\
  layout_events nfc (demo_props 2) st [ContainerLayout (Some 300%Q); TextLayout (Some [])] = st.
Proof.
  intros st. assert (H : isCalculationCompleteRef st = true) by (vm_compute; reflexivity).
  split; [exact H | apply (layout_events_complete_inert nfc (demo_props 2) st _ H)].
Defined.

(** ** X: what a mounted component shows after truncating *)
(** If the calculation on the measured lines and width truncates to [t],
    the component, once both layout events have arrived, shows [t] with no
    line limit and visible, followed by the "read more" label. *)
Theorem mount_truncated_render normalize P w lines t :
  calculateTruncatedText normalize (children P) lines w (numberOfLines P) (readMoreText P)
    (compensationSpaceAndroid P) (isMonospaced P) (shortWidthCharacters P)
    (longWidthCharacters P) = Computed true t ->
  render P (layout_events normalize P (mount P) [ContainerLayout (Some w); TextLayout (Some lines)]) =
  {| shown_text := t; line_limit := None; forced_transparent := false;
     label := Some (readMoreTextContent (readMoreText P)) |}.
Proof.
  intros H. rewrite mount_container_then_text.
  unfold calculateTruncatedText_run. cbn [textLinesRef containerWidthRef with_textLines with_containerWidth mount layout_effect initial_state].
  rewrite H. unfold render. cbn. rewrite bool_decide_refl. reflexivity.
Qed.

Lemma mount_truncated_render_witness :
  calculateTruncatedText nfc (children demo_props_labels) demo_lines 100 2
    (readMoreText demo_props_labels) 0 false [] [] = Computed true [0x6F; 0x6E; 0x65; SPACE; 0x74; 0x77; 0x6F] /\
  render demo_props_labels (layout_events nfc demo_props_labels (mount demo_props_labels)
    [ContainerLayout (Some 100%Q); TextLayout (Some demo_lines)]) =
  {| shown_text := [0x6F; 0x6E; 0x65; SPACE; 0x74; 0x77; 0x6F]; line_limit := None;
     forced_transparent := false; label := Some [0x2E; 0x2E; 0x2E; SPACE; 0x52; 0x65; 0x61; 0x64; SPACE; 0x6D; 0x6F; 0x72; 0x65] |}.
Proof.
  assert (H : calculateTruncatedText nfc (children demo_props_labels) demo_lines 100 2
    (readMoreText demo_props_labels) 0 false [] [] = Computed true [0x6F; 0x6E; 0x65; SPACE; 0x74; 0x77; 0x6F]) by (vm_compute; reflexivity).
  split; [exact H | exact (mount_truncated_render nfc demo_props_labels 100 demo_lines _ H)].
Defined.

(** ** X: what a mounted component shows when the text fits *)
(** If the calculation finds that the text fits, the component, once both
    layout events have arrived, shows [children] visible, with the
    [numberOfLines] limit and no label. *)
Theorem mount_fits_render normalize P w lines c :
  calculateTruncatedText normalize (children P) lines w (numberOfLines P) (readMoreText P)
    (compensationSpaceAndroid P) (isMonospaced P) (shortWidthCharacters P)
    (longWidthCharacters P) = Computed false c ->
  render P (layout_events normalize P (mount P) [ContainerLayout (Some w); TextLayout (Some lines)]) =
  {| shown_text := children P; line_limit := Some (numberOfLines P); forced_transparent := false;
     label := None |}.
Proof.
  intros H. rewrite mount_container_then_text.
  unfold calculateTruncatedText_run. cbn [textLinesRef containerWidthRef with_textLines with_containerWidth mount layout_effect initial_state].
  rewrite H. unfold render. cbn. rewrite bool_decide_refl. reflexivity.
Qed.

Lemma mount_fits_render_witness :
  calculateTruncatedText nfc (children (demo_props 3)) demo_lines 100 3 None 0 false [] [] =
    Computed false (children (demo_props 3)) /\
  render (demo_props 3) (layout_events nfc (demo_props 3) (mount (demo_props 3))
    [ContainerLayout (Some 100%Q); TextLayout (Some demo_lines)]) =
  {| shown_text := children (demo_props 3); line_limit := Some 3; forced_transparent := false;
     label := None |}.
Proof.
  assert (H : calculateTruncatedText nfc (children (demo_props 3)) demo_lines 100 3 None 0 false [] [] =
    Computed false (children (demo_props 3))) by (vm_compute; reflexivity).
  split; [exact H | apply (mount_fits_render nfc (demo_props 3) 100 demo_lines _ H)].
Defined.

(** ** X: the read-more toggle *)
(** After a truncating calculation, pressing the label shows [children]
    with no line limit and the label [" " + (readLessText || "Show less")];
    pressing it again renders exactly what was rendered before the first
    press. *)
Theorem toggleTextExpansion_round_trip normalize P w lines t :
  calculateTruncatedText normalize (children P) lines w (numberOfLines P) (readMoreText P)
    (compensationSpaceAndroid P) (isMonospaced P) (shortWidthCharacters P)
    (longWidthCharacters P) = Computed true t ->
  let st := layout_events normalize P (mount P) [ContainerLayout (Some w); TextLayout (Some lines)] in
  render P (toggleTextExpansion P st) =
    {| shown_text := children P; line_limit := None; forced_transparent := false;
       label := Some (SPACE :: readLessTextContent (readLessText P)) |} /\
  render P (toggleTextExpansion P (toggleTextExpansion P st)) = render P st.
Proof.
  intros H st. subst st. rewrite mount_container_then_text.
  unfold calculateTruncatedText_run. cbn [textLinesRef containerWidthRef with_textLines with_containerWidth mount layout_effect initial_state].
  rewrite H. unfold render, toggleTextExpansion. cbn. rewrite bool_decide_refl. split; reflexivity.
Qed.

Lemma toggleTextExpansion_round_trip_witness :
  calculateTruncatedText nfc (children demo_props_labels) demo_lines 100 2
    (readMoreText demo_props_labels) 0 false [] [] = Computed true [0x6F; 0x6E; 0x65; SPACE; 0x74; 0x77; 0x6F] /\
  let st := layout_events nfc demo_props_labels (mount demo_props_labels)
              [ContainerLayout (Some 100%Q); TextLayout (Some demo_lines)] in
  render demo_props_labels (toggleTextExpansion demo_props_labels st) =
    {| shown_text := children demo_props_labels; line_limit := None; forced_transparent := false;
       label := Some [SPACE; 0x4C; 0x65; 0x73; 0x73] |} /\
  render demo_props_labels
    (toggleTextExpansion demo_props_labels (toggleTextExpansion demo_props_labels st)) =
    render demo_props_labels st.
Proof.
  assert (H : calculateTruncatedText nfc (children demo_props_labels) demo_lines 100 2
    (readMoreText demo_props_labels) 0 false [] [] = Computed true [0x6F; 0x6E; 0x65; SPACE; 0x74; 0x77; 0x6F]) by (vm_compute; reflexivity).
  split; [exact H | exact (toggleTextExpansion_round_trip nfc demo_props_labels 100 demo_lines _ H)].
Defined.

(** ** X: a props change keeps the old container width *)
(** The layout effect does not reset [containerWidthRef]. After a change of
    [children], [style] or [numberOfLines] to the props [P], if the text
    layout event comes first, the calculation runs with the previous
    container width and the new width reported afterwards is ignored: the
    component renders as a freshly mounted one measured at the old width.
    [Ph] is the props the handlers' calculation closes over (possibly those
    of an earlier render); the container event returns early on both sides,
    whichever closure it holds. *)
Theorem props_change_text_first_keeps_width normalize Ph P st lines w' :
  Qeq_bool (containerWidthRef st) 0 = false -> lines <> [] -> 0 < numberOfLines Ph ->
  render P (layout_events normalize Ph (props_change P st)
              [TextLayout (Some lines); ContainerLayout (Some w')]) =
  render P (layout_events normalize Ph (mount P)
              [ContainerLayout (Some (containerWidthRef st)); TextLayout (Some lines)]).
Proof.
  intros Hw Hl Hn. rewrite mount_container_then_text.
  cbn [layout_events]. unfold onTextLayoutHandler at 1.
  cbn [isCalculationCompleteRef props_change layout_effect effect_cleanup].
  unfold calculateTruncatedText_run.
  cbn [textLinesRef containerWidthRef with_textLines with_containerWidth mount layout_effect
       initial_state props_change effect_cleanup].
  destruct (calculateTruncatedText_cases normalize (children Ph) lines (containerWidthRef st)
              (numberOfLines Ph) (readMoreText Ph) (compensationSpaceAndroid Ph) (isMonospaced Ph)
              (shortWidthCharacters Ph) (longWidthCharacters Ph) Hl Hw)
    as [[_ Hle] | [_ [b [t Hc]]]]; [lia|].
  rewrite Hc. destruct b; cbn [fst layout_events]; unfold onContainerLayout; cbn; reflexivity.
Qed.

Lemma props_change_text_first_keeps_width_witness :
  let st := layout_events nfc (demo_props 3) (mount (demo_props 3))
              [ContainerLayout (Some 100%Q); TextLayout (Some demo_lines)] in
  Qeq_bool (containerWidthRef st) 0 = false /\ demo_lines <> [] /\ 0 < numberOfLines (demo_props 2) /\
  render demo_props_mono (layout_events nfc (demo_props 2) (props_change demo_props_mono st)
              [TextLayout (Some demo_lines); ContainerLayout (Some 300%Q)]) =
  render demo_props_mono (layout_events nfc (demo_props 2) (mount demo_props_mono)
              [ContainerLayout (Some (containerWidthRef st)); TextLayout (Some demo_lines)]).
Proof.
  intros st. assert (Hw : Qeq_bool (containerWidthRef st) 0 = false) by (vm_compute; reflexivity).
  assert (Hl : demo_lines <> []) by discriminate.
  assert (Hn : 0 < numberOfLines (demo_props 2)) by (simpl; lia).
  split; [exact Hw|]. split; [exact Hl|]. split; [exact Hn|].
  apply (props_change_text_first_keeps_width nfc (demo_props 2) demo_props_mono st demo_lines 300
           Hw Hl Hn).
Defined.
